(** * S3-Migration: a shallow embedding of [migrate.go]

    The program copies one S3 bucket to another through a local staging
    directory: [downloadFiles] lists the source bucket and stores each object
    under the staging root, [uploadFiles] walks the staging tree and puts each
    file into the destination bucket, and [main] chains the two and removes
    the staging directory.

    The development has three layers:
    - [strings] and [filepath]: the Go path functions the program calls
      ([Join], [Dir], [Rel], [ToSlash], [TrimPrefix]), for a Unix target;
    - [os], [io], [walk] and [client]: the world the program acts on (a file
      system, a table of open files, standard output, the log of S3
      requests) and the outcomes that are decided outside the program;
    - the functions of [migrate.go], in state-passing style: each takes the
      world and returns the new world with its Go result.

    What the model leaves out: symbolic links, partial effects of a failed
    [MkdirAll] or [RemoveAll], a panic of [session.Must], and changes of the
    bucket or of the tree by anyone else during the run.  A fault of the
    environment depends on the operation and its argument only. *)

From Stdlib Require Import ZArith Ascii String Bool.
From Stdlib Require Strings.Byte.
From stdpp Require Import gmap strings list fin_maps.

Local Open Scope Z_scope.
Local Open Scope string_scope.
Local Open Scope list_scope.

(** Go's [(T, error)] results; an error is its message. *)
Definition error := string.

Inductive result (A : Type) : Type :=
| Ok (a : A)
| Err (e : error).
Arguments Ok {A} a.
Arguments Err {A} e.

(** ** Package [strings] *)
Module strings.

(** [strings.Split(s, "/")]: the pieces of [s] between slashes. *)
Fixpoint Split (s : string) : list string :=
  match s with
  | EmptyString => [ EmptyString ]
  | String c s' =>
      if Ascii.eqb c "/" then EmptyString :: Split s'
      else match Split s' with
           | e :: r => String c e :: r
           | [] => [ String c EmptyString ]
           end
  end.

(** [strings.Join(l, "/")]. *)
Fixpoint Join (l : list string) : string :=
  match l with
  | [] => EmptyString
  | [ e ] => e
  | e :: r => e +:+ "/" +:+ Join r
  end.

Fixpoint cut_prefix (s p : string) : option string :=
  match p with
  | EmptyString => Some s
  | String c p' =>
      match s with
      | String d s' => if Ascii.eqb c d then cut_prefix s' p' else None
      | EmptyString => None
      end
  end.

(** [strings.TrimPrefix(s, prefix)]: [s] without the leading [prefix], or [s]
    itself when it does not start with it. *)
Definition TrimPrefix (s p : string) : string :=
  match cut_prefix s p with
  | Some r => r
  | None => s
  end.

End strings.

(** ** Package [path/filepath], Unix flavour ([Separator] is the slash) *)
Module filepath.

Definition Separator : ascii := "/"%char.

Definition rooted (path : string) : bool :=
  match path with
  | String c _ => Ascii.eqb c Separator
  | EmptyString => false
  end.

(** One step of the scanning loop of [Clean]. [out] holds the elements
    written so far, the last one first. An empty element and [.] are dropped;
    [..] removes the last real element, is kept when the path is relative and
    nothing can be removed, and is dropped at the root. *)
Definition clean_step (is_rooted : bool) (out : list string) (e : string)
  : list string :=
  if String.eqb e "" || String.eqb e "." then out
  else if String.eqb e ".." then
    match out with
    | top :: rest => if String.eqb top ".." then e :: out else rest
    | [] => if is_rooted then [] else [ e ]
    end
  else e :: out.

Definition clean_elems (path : string) : list string :=
  fold_left (clean_step (rooted path)) (strings.Split path) [].

Definition render (is_rooted : bool) (out : list string) : string :=
  if is_rooted then "/" +:+ strings.Join (rev out)
  else match out with
       | [] => "."
       | _ => strings.Join (rev out)
       end.

(** [filepath.Clean]: the shortest path name equivalent to [path] by purely
    lexical processing. *)
Definition Clean (path : string) : string :=
  if String.eqb path "" then "."
  else render (rooted path) (clean_elems path).

(** [filepath.Join] of two elements: empty elements are ignored, the rest is
    joined by the separator and cleaned. *)
Definition Join (a b : string) : string :=
  if String.eqb a "" then
    if String.eqb b "" then "" else Clean b
  else Clean (a +:+ "/" +:+ b).

(** [filepath.Dir]: all but the last element of [path], cleaned. *)
Definition Dir (path : string) : string :=
  match rev (strings.Split path) with
  | _ :: (_ :: _) as r => Clean (strings.Join (rev r) +:+ "/")
  | _ => Clean ""
  end.

(** The elements the scanning loop of [Rel] steps over: the pieces between
    separators, a separator at the very end opening no further element. *)
Definition elements (path : string) : list string :=
  match rev (strings.Split path) with
  | EmptyString :: r => rev r
  | _ => strings.Split path
  end.

(** The loop of [Rel] that skips the leading elements both paths share. *)
Fixpoint strip_common (b t : list string) : list string * list string :=
  match b, t with
  | x :: b', y :: t' => if String.eqb x y then strip_common b' t' else (b, t)
  | _, _ => (b, t)
  end.

(** [filepath.Rel(basepath, targpath)]. *)
Definition Rel (basepath targpath : string) : result string :=
  let base := Clean basepath in
  let targ := Clean targpath in
  if String.eqb targ base then Ok "."
  else
    let base := if String.eqb base "." then "" else base in
    if negb (Bool.eqb (rooted base) (rooted targ)) then
      Err ("Rel: can't make " +:+ targpath +:+ " relative to " +:+ basepath)
    else
      let '(rb, rt) := strip_common (elements base) (elements targ) in
      match rb, rt with
      | [], _ => Ok (strings.Join rt)
      | b :: _, _ :: _ =>
          if String.eqb b ".." then
            Err ("Rel: can't make " +:+ targpath +:+ " relative to " +:+ basepath)
          else Ok (strings.Join (repeat ".." (length rb) ++ rt))
      | _ :: _, [] => Ok (strings.Join (repeat ".." (length rb)))
      end.

(** [filepath.ToSlash]: every [Separator] becomes a slash. *)
Fixpoint ToSlash (path : string) : string :=
  match path with
  | EmptyString => EmptyString
  | String c s => String (if Ascii.eqb c Separator then "/"%char else c) (ToSlash s)
  end.

End filepath.

(** ** The program's configuration (the structs of [migrate.go]) *)
Record S3Config := {
  AccessKey : string;
  SecretKey : string;
  Endpoint : string;
  Bucket : string;
  LocalDownloadPath : string;
  Region : string;
}.

Record Config := {
  Source : S3Config;
  Destination : S3Config;
}.

(** ** Package [s3]: the requests and answers of the object store *)
Module s3.

(** The [aws.Config] a client is made from. *)
Record Client := {
  cl_Endpoint : string;
  cl_AccessKey : string;
  cl_SecretKey : string;
  cl_Region : string;
}.

Record Object := {
  Key : string;
  Size : Z;
}.

Record ListObjectsInput := {
  li_Bucket : string;
  li_Marker : option string;
}.

Record ListObjectsOutput := {
  Contents : list Object;
  IsTruncated : bool;
  NextMarker : option string;
}.

Record GetObjectInput := {
  gi_Bucket : string;
  gi_Key : string;
}.

Record PutObjectInput := {
  pi_Bucket : string;
  pi_Key : string;
  pi_Body : list Byte.byte;
}.

(** A call that went out to an endpoint. *)
Inductive Request :=
| ListObjectsReq (c : Client) (i : ListObjectsInput)
| GetObjectReq (c : Client) (i : GetObjectInput)
| PutObjectReq (c : Client) (i : PutObjectInput).

End s3.

(** ** The file system and what is decided outside the program *)
Inductive Node :=
| File (data : list Byte.byte)
| Directory.

Inductive Op :=
| OpMkdirAll | OpCreate | OpOpen | OpLstat | OpReadDir | OpRemoveAll | OpReadFile.

(** The environment fixes every outcome the program does not control: the
    faults of the operating system (permissions, a full disk, ...), the
    answers of the S3 endpoints and the YAML parser.  A fault is keyed by the
    operation and the path name it is called with. *)
Record Env := {
  os_fault : Op -> string -> option error;
  (** [io.Copy] into the file of that name breaks after so many bytes *)
  copy_fault : string -> option (nat * error);
  yaml_Unmarshal : list Byte.byte -> result Config;
  s3_ListObjects : s3.Client -> s3.ListObjectsInput -> result s3.ListObjectsOutput;
  s3_GetObject : s3.Client -> s3.GetObjectInput -> result (list Byte.byte);
  s3_PutObject : s3.Client -> s3.PutObjectInput -> option error;
}.

(** An open [*os.File]. *)
Record FileHandle := {
  fd : nat;
  fname : string;
}.

(** The state the program acts on.  [fs] maps the cleaned name of every
    existing file and directory to its node (relative names are relative to
    the working directory, which never changes). *)
Record World := {
  fs : gmap string Node;
  open_files : list FileHandle;
  next_fd : nat;
  stdout : list string;
  requests : list s3.Request;
}.

Definition set_fs (m : gmap string Node) (w : World) : World :=
  {| fs := m; open_files := open_files w; next_fd := next_fd w;
     stdout := stdout w; requests := requests w |}.

Definition send (r : s3.Request) (w : World) : World :=
  {| fs := fs w; open_files := open_files w; next_fd := next_fd w;
     stdout := stdout w; requests := requests w ++ [ r ] |}.

(** [fmt.Println]: the operands separated by spaces, as one line. *)
Fixpoint sprint (l : list string) : string :=
  match l with
  | [] => ""
  | [ x ] => x
  | x :: r => x +:+ " " +:+ sprint r
  end.

Definition Println (l : list string) (w : World) : World :=
  {| fs := fs w; open_files := open_files w; next_fd := next_fd w;
     stdout := stdout w ++ [ sprint l ]; requests := requests w |}.

(** ** Package [os] and [path/filepath.Walk] on the modelled file system *)
Module os.

Record FileInfo := {
  IsDir : bool;
  Size : Z;
}.

Definition info_of (n : Node) : FileInfo :=
  match n with
  | File data => {| IsDir := false; Size := Z.of_nat (length data) |}
  | Directory => {| IsDir := true; Size := 4096 |}
  end.

(** The [FileInfo] a callback of [Walk] gets when [Lstat] failed ([nil] in Go). *)
Definition nilFileInfo : FileInfo := {| IsDir := false; Size := 0 |}.

Definition is_file (m : gmap string Node) (p : string) : bool :=
  match m !! p with
  | Some (File _) => true
  | _ => false
  end.

(** The non-empty prefixes of a list, the shortest first. *)
Fixpoint inits {A : Type} (l : list A) : list (list A) :=
  match l with
  | [] => []
  | x :: r => [ x ] :: map (cons x) (inits r)
  end.

(** The directories that lead to the cleaned name [p], [p] included, the
    outermost first. *)
Definition chain (p : string) : list string :=
  List.filter (fun d => negb (String.eqb d ""))
    (map strings.Join (inits (strings.Split p))).

(** [os.MkdirAll(path, perm)]: creates [path] and the missing parents; succeeds
    when [path] is a directory already; fails when a file is in the way. *)
Definition MkdirAll (env : Env) (path : string) (w : World) : World * option error :=
  if String.eqb path "" then (w, Some "mkdir : no such file or directory")
  else
    match os_fault env OpMkdirAll path with
    | Some e => (w, Some e)
    | None =>
        let dirs := chain (filepath.Clean path) in
        if existsb (is_file (fs w)) dirs then
          (w, Some ("mkdir " +:+ path +:+ ": not a directory"))
        else
          (set_fs (foldr (fun d m => <[d := Directory]> m) (fs w) dirs) w, None)
    end.

(** [os.Create(name)]: creates or truncates the file and opens it. *)
Definition Create (env : Env) (name : string) (w : World) : World * result FileHandle :=
  if String.eqb name "" then (w, Err "open : no such file or directory")
  else
    match os_fault env OpCreate name with
    | Some e => (w, Err e)
    | None =>
        let p := filepath.Clean name in
        match fs w !! p, fs w !! filepath.Dir p with
        | Some Directory, _ => (w, Err ("open " +:+ name +:+ ": is a directory"))
        | _, Some Directory =>
            let f := {| fd := next_fd w; fname := name |} in
            ({| fs := <[p := File []]> (fs w);
                open_files := f :: open_files w;
                next_fd := S (next_fd w);
                stdout := stdout w;
                requests := requests w |}, Ok f)
        | _, _ => (w, Err ("open " +:+ name +:+ ": no such file or directory"))
        end
    end.

(** [os.Open(name)]: opens an existing file or directory for reading. *)
Definition Open (env : Env) (name : string) (w : World) : World * result FileHandle :=
  if String.eqb name "" then (w, Err "open : no such file or directory")
  else
    match os_fault env OpOpen name with
    | Some e => (w, Err e)
    | None =>
        match fs w !! filepath.Clean name with
        | Some _ =>
            let f := {| fd := next_fd w; fname := name |} in
            ({| fs := fs w;
                open_files := f :: open_files w;
                next_fd := S (next_fd w);
                stdout := stdout w;
                requests := requests w |}, Ok f)
        | None => (w, Err ("open " +:+ name +:+ ": no such file or directory"))
        end
    end.

(** [File.Close]: the descriptor leaves the table of open files. *)
Definition Close (f : FileHandle) (w : World) : World :=
  {| fs := fs w;
     open_files := List.filter (fun g => negb (Nat.eqb (fd g) (fd f))) (open_files w);
     next_fd := next_fd w;
     stdout := stdout w;
     requests := requests w |}.

(** What a reader of the open file gets: the bytes stored under its name. *)
Definition contents (f : FileHandle) (w : World) : list Byte.byte :=
  match fs w !! filepath.Clean (fname f) with
  | Some (File data) => data
  | _ => []
  end.

(** [File.Write]: the bytes are appended to the file. *)
Definition Write (f : FileHandle) (data : list Byte.byte) (w : World) : World :=
  set_fs (<[filepath.Clean (fname f) := File (contents f w ++ data)]> (fs w)) w.

(** [os.ReadFile(name)]. *)
Definition ReadFile (env : Env) (name : string) (w : World) : result (list Byte.byte) :=
  match os_fault env OpReadFile name with
  | Some e => Err e
  | None =>
      match fs w !! filepath.Clean name with
      | Some (File data) => Ok data
      | Some Directory => Err ("read " +:+ name +:+ ": is a directory")
      | None => Err ("open " +:+ name +:+ ": no such file or directory")
      end
  end.

(** [os.Lstat(name)]. *)
Definition Lstat (env : Env) (name : string) (w : World) : result FileInfo :=
  if String.eqb name "" then Err "lstat : no such file or directory"
  else
    match os_fault env OpLstat name with
    | Some e => Err e
    | None =>
        match fs w !! filepath.Clean name with
        | Some n => Ok (info_of n)
        | None => Err ("lstat " +:+ name +:+ ": no such file or directory")
        end
    end.

(** The names that lead from the directory [r] down to [k], when [k] lies
    inside [r]: the relative path from [r] to [k] goes down only. *)
Definition names_below (r k : string) : option (list string) :=
  match filepath.Rel r k with
  | Ok rel =>
      match strings.Split rel with
      | n :: ns =>
          if String.eqb rel "." || String.eqb n ".." || String.eqb n "" then None
          else Some (n :: ns)
      | [] => None
      end
  | Err _ => None
  end.

Definition below (r k : string) : bool :=
  match names_below r k with
  | Some _ => true
  | None => false
  end.

Definition endsWithDot (path : string) : bool :=
  match rev (strings.Split path) with
  | "." :: _ => true
  | _ => false
  end.

(** [os.RemoveAll(path)]: removes [path] and everything inside it; no error
    when [path] does not exist. *)
Definition RemoveAll (env : Env) (path : string) (w : World) : World * option error :=
  if String.eqb path "" then (w, None)
  else if endsWithDot path then
    (w, Some ("RemoveAll " +:+ path +:+ ": invalid argument"))
  else
    match os_fault env OpRemoveAll path with
    | Some e => (w, Some e)
    | None =>
        let r := filepath.Clean path in
        (set_fs (filter (fun kv : string * Node =>
                           negb (String.eqb kv.1 r || below r kv.1) = true) (fs w)) w,
         None)
    end.

End os.

Module io.

(** [io.Copy(dst, src)]: writes the bytes of [src] to [dst] until the end of
    [src] or the first error (of the reader or of the writer). *)
Definition Copy (env : Env) (dst : FileHandle) (src : list Byte.byte) (w : World)
  : World * option error :=
  match copy_fault env (fname dst) with
  | Some (n, e) => (os.Write dst (firstn n src) w, Some e)
  | None => (os.Write dst src w, None)
  end.

End io.

(** ** [filepath.Walk] *)
Module walk.

(** One call of the walk function: the path, its [FileInfo] and the error
    [Walk] met at that path, if any. *)
Record Visit := {
  v_path : string;
  v_info : os.FileInfo;
  v_err : option error;
}.

(** [Walk] reads the names of a directory sorted, and walks each entry before
    the next one: the entries come in the lexical order of their name lists. *)
Fixpoint names_le (a b : list string) : bool :=
  match a, b with
  | [], _ => true
  | _ :: _, [] => false
  | x :: a', y :: b' => if String.eqb x y then names_le a' b' else String.ltb x y
  end.

Definition Entry : Type := list string * (string * Node).

Fixpoint insert_entry (x : Entry) (l : list Entry) : list Entry :=
  match l with
  | [] => [ x ]
  | y :: r => if names_le x.1 y.1 then x :: l else y :: insert_entry x r
  end.

Definition sort_entries (l : list Entry) : list Entry := foldr insert_entry [] l.

(** Everything stored inside the directory [r], in walk order.  A node is
    stored under its cleaned name; a key of any other form is no entry. *)
Definition entry_below (r : string) (kv : string * Node) : option Entry :=
  if String.eqb (filepath.Clean kv.1) kv.1 then
    match os.names_below r kv.1 with
    | Some ns => Some (ns, kv)
    | None => None
    end
  else None.

Definition entries_below (r : string) (m : gmap string Node) : list Entry :=
  sort_entries (omap (entry_below r) (map_to_list m)).

Definition faulty (env : Env) (a : string) : bool :=
  match os_fault env OpLstat a, os_fault env OpReadDir a with
  | None, None => false
  | _, _ => true
  end.

(** [Walk] does not descend into a directory it cannot read: [k] is out of
    reach when a directory between [r] and [k] is faulty. *)
Definition hidden (env : Env) (r : string) (m : gmap string Node) (k : string) : bool :=
  existsb (fun a => os.below r a && os.below a k && faulty env a)
          (map fst (map_to_list m)).

Definition visit_of (env : Env) (e : Entry) : Visit :=
  let k := e.2.1 in
  match os_fault env OpLstat k with
  | Some err => {| v_path := k; v_info := os.nilFileInfo; v_err := Some err |}
  | None =>
      match e.2.2 with
      | Directory =>
          {| v_path := k; v_info := os.info_of Directory;
             v_err := os_fault env OpReadDir k |}
      | File data =>
          {| v_path := k; v_info := os.info_of (File data); v_err := None |}
      end
  end.

(** The calls [Walk(root, fn)] makes as long as [fn] returns no error: the
    root under the name it was given, then every entry inside it under its
    cleaned name (the [Join] of its directory and its own name). *)
Definition visits (env : Env) (root : string) (w : World) : list Visit :=
  match os.Lstat env root w with
  | Err e => [ {| v_path := root; v_info := os.nilFileInfo; v_err := Some e |} ]
  | Ok info =>
      if negb (os.IsDir info) then
        [ {| v_path := root; v_info := info; v_err := None |} ]
      else
        match os_fault env OpReadDir root with
        | Some e => [ {| v_path := root; v_info := info; v_err := Some e |} ]
        | None =>
            let r := filepath.Clean root in
            {| v_path := root; v_info := info; v_err := None |}
            :: map (visit_of env)
                 (List.filter (fun e : Entry => negb (hidden env r (fs w) e.2.1))
                    (entries_below r (fs w)))
        end
  end.

Definition WalkFunc : Type :=
  string -> os.FileInfo -> option error -> World -> World * option error.

(** The walk stops at the first error the walk function returns. *)
Fixpoint walk_visits (fn : WalkFunc) (vs : list Visit) (w : World) : World * option error :=
  match vs with
  | [] => (w, None)
  | v :: rest =>
      match fn (v_path v) (v_info v) (v_err v) w with
      | (w1, Some e) => (w1, Some e)
      | (w1, None) => walk_visits fn rest w1
      end
  end.

(** [filepath.Walk(root, fn)], for a walk function that leaves the tree as it
    is and returns no [SkipDir]. *)
Definition Walk (env : Env) (root : string) (fn : WalkFunc) (w : World)
  : World * option error :=
  walk_visits fn (visits env root w) w.

End walk.

(** ** The S3 client *)
Module client.

(** [s3.New(session.Must(session.NewSession(config)))]. *)
Definition New (endpoint accessKey secretKey region : string) : s3.Client :=
  {| s3.cl_Endpoint := endpoint; s3.cl_AccessKey := accessKey;
     s3.cl_SecretKey := secretKey; s3.cl_Region := region |}.

Definition ListObjects (env : Env) (c : s3.Client) (i : s3.ListObjectsInput) (w : World)
  : World * result s3.ListObjectsOutput :=
  (send (s3.ListObjectsReq c i) w, s3_ListObjects env c i).

Definition GetObject (env : Env) (c : s3.Client) (i : s3.GetObjectInput) (w : World)
  : World * result (list Byte.byte) :=
  (send (s3.GetObjectReq c i) w, s3_GetObject env c i).

(** [PutObject] with an open file as body: the request carries its bytes. *)
Definition PutObject (env : Env) (c : s3.Client) (bucket key : string)
    (body : FileHandle) (w : World) : World * option error :=
  let i := {| s3.pi_Bucket := bucket; s3.pi_Key := key;
              s3.pi_Body := os.contents body w |} in
  (send (s3.PutObjectReq c i) w, s3_PutObject env c i).

End client.

(** ** The functions of [migrate.go] *)

Definition readConfig (env : Env) (file : string) (w : World) : result Config :=
  match os.ReadFile env file w with
  | Err err => Err err
  | Ok yamlFile =>
      match yaml_Unmarshal env yamlFile with
      | Err err => Err err
      | Ok config => Ok config
      end
  end.

(** The way one round of the download loop ends. *)
Inductive Outcome :=
| MkdirFailed     (* continue after "Error creating subdirectories:" *)
| GetFailed       (* continue after "Error getting object:" *)
| NothingWritten  (* size not above zero: end of the loop body *)
| CreateFailed    (* continue after "Error creating local file:" *)
| CopyFailed      (* continue after "Error copying object to local file:" *)
| Downloaded.     (* "Downloaded file:" *)

(** The staging path of a key (line 99). *)
Definition toLocalPath (localPath key : string) : string :=
  filepath.Join localPath key.

(** The body of the loop of [downloadFiles] for one listed object.
    [deferred] is the stack of the [defer localFile.Close()] calls the
    function has piled up: they run when [downloadFiles] returns. *)
Definition downloadObject (env : Env) (c : s3.Client) (bucket localPath : string)
    (object : s3.Object) (st : World * list FileHandle)
  : World * list FileHandle * Outcome :=
  let '(w, deferred) := st in
  let localFilePath := toLocalPath localPath (s3.Key object) in
  match os.MkdirAll env (filepath.Dir localFilePath) w with
  | (w, Some err) =>
      (Println [ "Error creating subdirectories:"; err ] w, deferred, MkdirFailed)
  | (w, None) =>
      let getObjectInput :=
        {| s3.gi_Bucket := bucket; s3.gi_Key := s3.Key object |} in
      match client.GetObject env c getObjectInput w with
      | (w, Err err) =>
          (Println [ "Error getting object:"; s3.Key object; err ] w, deferred, GetFailed)
      | (w, Ok body) =>
          if s3.Size object >? 0 then
            match os.Create env localFilePath w with
            | (w, Err err) =>
                (Println [ "Error creating local file:"; localFilePath; err ] w,
                 deferred, CreateFailed)
            | (w, Ok localFile) =>
                let deferred := localFile :: deferred in
                match io.Copy env localFile body w with
                | (w, Some err) =>
                    (Println [ "Error copying object to local file:"; s3.Key object; err ] w,
                     deferred, CopyFailed)
                | (w, None) =>
                    (Println [ "Downloaded file:"; s3.Key object ] w, deferred, Downloaded)
                end
            end
          else (w, deferred, NothingWritten)
      end
  end.

(** [for _, object := range listObjectsOutput.Contents]: the state after the
    loop and, for each object in turn, how its round ended. *)
Fixpoint downloadLoop (env : Env) (c : s3.Client) (bucket localPath : string)
    (objects : list s3.Object) (st : World * list FileHandle)
  : World * list FileHandle * list (s3.Object * Outcome) :=
  match objects with
  | [] => (st.1, st.2, [])
  | object :: rest =>
      let '(w, deferred, out) := downloadObject env c bucket localPath object st in
      let '(w', deferred', outs) := downloadLoop env c bucket localPath rest (w, deferred) in
      (w', deferred', (object, out) :: outs)
  end.

(** The deferred calls run last in, first out. *)
Definition run_deferred (deferred : list FileHandle) (w : World) : World :=
  fold_left (fun w f => os.Close f w) deferred w.

Definition downloadFiles (env : Env)
    (accessKey secretKey endpoint bucket localPath region : string) (w : World)
  : World * option error :=
  let c := client.New endpoint accessKey secretKey region in
  let listObjectsInput := {| s3.li_Bucket := bucket; s3.li_Marker := None |} in
  match client.ListObjects env c listObjectsInput w with
  | (w, Err err) => (w, Some err)
  | (w, Ok listObjectsOutput) =>
      let '(w, deferred, _) :=
        downloadLoop env c bucket localPath (s3.Contents listObjectsOutput) (w, []) in
      (run_deferred deferred w, None)
  end.

(** The upload key of a staging path (lines 162 to 165); the error of [Rel]
    is dropped and leaves the empty string. *)
Definition toObjectKey (directory path : string) : string :=
  let relPath := match filepath.Rel directory path with
                 | Ok r => r
                 | Err _ => ""
                 end in
  let uploadKey := filepath.ToSlash relPath in
  strings.TrimPrefix uploadKey "./".

(** The walk function of [uploadFiles]. *)
Definition uploadFile (env : Env) (c : s3.Client) (bucket directory : string)
  : walk.WalkFunc :=
  fun path info err w =>
    match err with
    | Some err => (w, Some err)
    | None =>
        if os.IsDir info then (w, None)
        else
          match os.Open env path w with
          | (w, Err err) => (w, Some err)
          | (w, Ok file) =>
              (* defer file.Close() *)
              let uploadKey := toObjectKey directory path in
              if os.Size info >? 0 then
                match client.PutObject env c bucket uploadKey file w with
                | (w, Some err) => (os.Close file w, Some err)
                | (w, None) => (os.Close file w, None)
                end
              else (os.Close file w, None)
          end
    end.

Definition uploadFiles (env : Env)
    (accessKey secretKey endpoint bucket directory region : string) (w : World)
  : World * option error :=
  let c := client.New endpoint accessKey secretKey region in
  walk.Walk env directory (uploadFile env c bucket directory) w.

(** The call of line 45. *)
Definition downloadCall (env : Env) (config : Config) (w : World) : World * option error :=
  downloadFiles env (AccessKey (Source config)) (SecretKey (Source config))
    (Endpoint (Source config)) (Bucket (Source config))
    (LocalDownloadPath (Source config)) (Region (Source config)) w.

(** The call of line 51. *)
Definition uploadCall (env : Env) (config : Config) (w : World) : World * option error :=
  uploadFiles env (AccessKey (Destination config)) (SecretKey (Destination config))
    (Endpoint (Destination config)) (Bucket (Destination config))
    (LocalDownloadPath (Source config)) (Region (Destination config)) w.

(** Lines 51 to 63 of [main]: upload, removal of the staging directory and
    the closing message.  The second component is the exit code. *)
Definition finish (env : Env) (config : Config) (w : World) : World * Z :=
  match uploadCall env config w with
  | (w, Some err) => (Println [ "Error uploading files:"; err ] w, 1)
  | (w, None) =>
      match os.RemoveAll env (LocalDownloadPath (Source config)) w with
      | (w, Some err) => (Println [ "Error deleting files and directory:"; err ] w, 1)
      | (w, None) =>
          (Println [ "Download and upload complete. Deleted local files and directory." ] w, 0)
      end
  end.

Definition main (env : Env) (w : World) : World * Z :=
  let configFile := "config.yaml" in
  match readConfig env configFile w with
  | Err err => (Println [ "Error reading config file:"; err ] w, 1)
  | Ok config =>
      match os.MkdirAll env (LocalDownloadPath (Source config)) w with
      | (w, Some err) => (Println [ "Error creating download directory:"; err ] w, 1)
      | (w, None) =>
          match downloadCall env config w with
          | (w, Some err) => (Println [ "Error downloading files:"; err ] w, 1)
          | (w, None) => finish env config w
          end
      end
  end.

(** ** What a run of the download phase goes through *)

(** The state of [downloadFiles] when its loop has ended and the deferred
    calls have not run yet, with the rounds of the loop: each listed object
    and the way its round ended. *)
Definition downloadRounds (env : Env)
    (accessKey secretKey endpoint bucket localPath region : string) (w : World)
  : World * list FileHandle * list (s3.Object * Outcome) :=
  let c := client.New endpoint accessKey secretKey region in
  let listObjectsInput := {| s3.li_Bucket := bucket; s3.li_Marker := None |} in
  match client.ListObjects env c listObjectsInput w with
  | (w, Err _) => (w, [], [])
  | (w, Ok listObjectsOutput) =>
      downloadLoop env c bucket localPath (s3.Contents listObjectsOutput) (w, [])
  end.

(** The rounds of the call of line 45. *)
Definition roundsCall (env : Env) (config : Config) (w : World)
  : World * list FileHandle * list (s3.Object * Outcome) :=
  downloadRounds env (AccessKey (Source config)) (SecretKey (Source config))
    (Endpoint (Source config)) (Bucket (Source config))
    (LocalDownloadPath (Source config)) (Region (Source config)) w.

(** The keys the download loop went through, in order. *)
Definition processed_keys (rs : list (s3.Object * Outcome)) : list string :=
  map (fun r : s3.Object * Outcome => s3.Key r.1) rs.

(** The client of the source endpoint and the listing request it sends. *)
Definition sourceClient (config : Config) : s3.Client :=
  client.New (Endpoint (Source config)) (AccessKey (Source config))
    (SecretKey (Source config)) (Region (Source config)).

Definition destClient (config : Config) : s3.Client :=
  client.New (Endpoint (Destination config)) (AccessKey (Destination config))
    (SecretKey (Destination config)) (Region (Destination config)).

Definition listingInput (config : Config) : s3.ListObjectsInput :=
  {| s3.li_Bucket := Bucket (Source config); s3.li_Marker := None |}.

Definition getInput (config : Config) (key : string) : s3.GetObjectInput :=
  {| s3.gi_Bucket := Bucket (Source config); s3.gi_Key := key |}.

(** The staging path of a key under the configured staging root. *)
Definition stagingPath (config : Config) (key : string) : string :=
  toLocalPath (LocalDownloadPath (Source config)) key.

(** A round that left a file behind. *)
Definition wrote (oc : Outcome) : bool :=
  match oc with
  | CopyFailed | Downloaded => true
  | _ => false
  end.

(** A round that ended on one of the error branches. *)
Definition failed (oc : Outcome) : bool :=
  match oc with
  | MkdirFailed | GetFailed | CreateFailed | CopyFailed => true
  | NothingWritten | Downloaded => false
  end.

(** The keys of the [GetObject] and of the [PutObject] calls of a log. *)
Definition get_keys (l : list s3.Request) : list string :=
  omap (fun r => match r with
                 | s3.GetObjectReq _ i => Some (s3.gi_Key i)
                 | _ => None
                 end) l.

Definition puts (l : list s3.Request) : list s3.PutObjectInput :=
  omap (fun r => match r with
                 | s3.PutObjectReq _ i => Some i
                 | _ => None
                 end) l.

Definition lists (l : list s3.Request) : list s3.ListObjectsInput :=
  omap (fun r => match r with
                 | s3.ListObjectsReq _ i => Some i
                 | _ => None
                 end) l.

(** ** Path names: the notions the statements use *)

(** An element without separator. *)
Definition sep_free (e : string) : Prop := strings.Split e = [ e ].

(** A real name: not empty, not [.] and not [..]. *)
Definition normal (e : string) : bool :=
  negb (String.eqb e "") && negb (String.eqb e ".") && negb (String.eqb e "..").

(** A key whose pieces between slashes are all real names. *)
Definition clean_key (K : string) : bool := forallb normal (strings.Split K).

(** A stack of [Clean]: real names on top of the [..] elements a relative
    path starts with. *)
Definition wf_stack (is_rooted : bool) (out : list string) : Prop :=
  exists tops n,
    out = tops ++ repeat ".." n /\
    Forall (fun e => normal e = true /\ sep_free e) tops /\
    (is_rooted = true -> n = 0%nat).

Definition stack_elements (is_rooted : bool) (out : list string) : list string :=
  if is_rooted then "" :: rev out else rev out.

(** ** A simulated bucket behind a paginated listing *)
Module sim.

(** The objects of the bucket in listing order, each with its bytes. *)
Definition Objects : Type := list (string * list Byte.byte).

Definition describe (o : string * list Byte.byte) : s3.Object :=
  {| s3.Key := o.1; s3.Size := Z.of_nat (length o.2) |}.

Fixpoint after (marker : string) (objs : Objects) : Objects :=
  match objs with
  | [] => []
  | o :: rest => if String.eqb o.1 marker then rest else after marker rest
  end.

(** One page of at most [maxKeys] entries, starting after the marker; the
    listing is truncated when entries remain. *)
Definition ListObjects (maxKeys : nat) (objs : Objects) (i : s3.ListObjectsInput)
  : result s3.ListObjectsOutput :=
  let rest := match s3.li_Marker i with
              | Some m => after m objs
              | None => objs
              end in
  let page := firstn maxKeys rest in
  let truncated := Nat.ltb maxKeys (length rest) in
  Ok {| s3.Contents := map describe page;
        s3.IsTruncated := truncated;
        s3.NextMarker := if truncated then option_map fst (last page) else None |}.

Definition GetObject (objs : Objects) (i : s3.GetObjectInput) : result (list Byte.byte) :=
  match List.find (fun o : string * list Byte.byte => String.eqb o.1 (s3.gi_Key i)) objs with
  | Some o => Ok o.2
  | None => Err "NoSuchKey: The specified key does not exist."
  end.

(** An environment without faults: the source bucket holds [objs] and lists
    them by pages of [maxKeys]; the destination accepts every object. *)
Definition env (maxKeys : nat) (objs : Objects) (config : Config) : Env :=
  {| os_fault := fun _ _ => None;
     copy_fault := fun _ => None;
     yaml_Unmarshal := fun _ => Ok config;
     s3_ListObjects := fun _ i => ListObjects maxKeys objs i;
     s3_GetObject := fun _ i => GetObject objs i;
     s3_PutObject := fun _ _ => None |}.

Definition config (staging : string) : Config :=
  {| Source := {| AccessKey := "AKIASRC"; SecretKey := "s3cr3t"; Endpoint := "https://src.example";
                  Bucket := "in"; LocalDownloadPath := staging; Region := "us-east-1" |};
     Destination := {| AccessKey := "AKIADST"; SecretKey := "s3cr3t"; Endpoint := "https://dst.example";
                       Bucket := "out"; LocalDownloadPath := ""; Region := "us-east-1" |} |}.

(** A working directory that holds the configuration file and nothing else. *)
Definition world : World :=
  {| fs := <["config.yaml" := File (list_byte_of_string "source: {}")]> (<["." := Directory]> ∅);
     open_files := [];
     next_fd := 3;
     stdout := [];
     requests := [] |}.

End sim.

(** The request a round of the download loop sends: none when the round
    stopped at the directory creation. *)
Definition round_requests (c : s3.Client) (bucket : string) (r : s3.Object * Outcome)
  : list s3.Request :=
  match r.2 with
  | MkdirFailed => []
  | _ => [ s3.GetObjectReq c {| s3.gi_Bucket := bucket; s3.gi_Key := s3.Key r.1 |} ]
  end.

(** ** Environments with one more fault *)

Definition Op_eqb (a b : Op) : bool :=
  match a, b with
  | OpMkdirAll, OpMkdirAll | OpCreate, OpCreate | OpOpen, OpOpen
  | OpLstat, OpLstat | OpReadDir, OpReadDir | OpRemoveAll, OpRemoveAll
  | OpReadFile, OpReadFile => true
  | _, _ => false
  end.

Definition with_os_fault (op : Op) (path : string) (e : error) (env : Env) : Env :=
  {| os_fault := fun op' p =>
       if Op_eqb op op' && String.eqb p path then Some e else os_fault env op' p;
     copy_fault := copy_fault env;
     yaml_Unmarshal := yaml_Unmarshal env;
     s3_ListObjects := s3_ListObjects env;
     s3_GetObject := s3_GetObject env;
     s3_PutObject := s3_PutObject env |}.

Definition with_copy_fault (path : string) (n : nat) (e : error) (env : Env) : Env :=
  {| os_fault := os_fault env;
     copy_fault := fun p => if String.eqb p path then Some (n, e) else copy_fault env p;
     yaml_Unmarshal := yaml_Unmarshal env;
     s3_ListObjects := s3_ListObjects env;
     s3_GetObject := s3_GetObject env;
     s3_PutObject := s3_PutObject env |}.

Definition with_get_fault (key : string) (e : error) (env : Env) : Env :=
  {| os_fault := os_fault env;
     copy_fault := copy_fault env;
     yaml_Unmarshal := yaml_Unmarshal env;
     s3_ListObjects := s3_ListObjects env;
     s3_GetObject := fun c i =>
       if String.eqb (s3.gi_Key i) key then Err e else s3_GetObject env c i;
     s3_PutObject := s3_PutObject env |}.

Definition with_put_fault (key : string) (e : error) (env : Env) : Env :=
  {| os_fault := os_fault env;
     copy_fault := copy_fault env;
     yaml_Unmarshal := yaml_Unmarshal env;
     s3_ListObjects := s3_ListObjects env;
     s3_GetObject := s3_GetObject env;
     s3_PutObject := fun c i =>
       if String.eqb (s3.pi_Key i) key then Some e else s3_PutObject env c i |}.

(** The bytes of a text. *)
Definition bytes (s : string) : list Byte.byte := list_byte_of_string s.

(** ** What a run of the upload phase goes through *)

(** A visit of a regular file that [Walk] could look at. *)
Definition regular (v : walk.Visit) : bool :=
  match walk.v_err v with
  | None => negb (os.IsDir (walk.v_info v))
  | Some _ => false
  end.

(** The visits of the call of line 51, and its walk function. *)
Definition visitsCall (env : Env) (config : Config) (w : World) : list walk.Visit :=
  walk.visits env (LocalDownloadPath (Source config)) w.

Definition uploadFn (env : Env) (config : Config) : walk.WalkFunc :=
  uploadFile env (destClient config) (Bucket (Destination config))
    (LocalDownloadPath (Source config)).

(** The upload key of a staging path under the configured staging root. *)
Definition uploadKey (config : Config) (path : string) : string :=
  toObjectKey (LocalDownloadPath (Source config)) path.

(** The bytes stored under a path name. *)
Definition stored (m : gmap string Node) (path : string) : list Byte.byte :=
  match m !! filepath.Clean path with
  | Some (File data) => data
  | _ => []
  end.

(** The put request of a visited file, as the call of line 51 sends it. *)
Definition putRequest (config : Config) (m : gmap string Node) (v : walk.Visit) : s3.Request :=
  s3.PutObjectReq (destClient config)
    {| s3.pi_Bucket := Bucket (Destination config);
       s3.pi_Key := uploadKey config (walk.v_path v);
       s3.pi_Body := stored m (walk.v_path v) |}.

(** ** The rounds of the download loop, one by one *)

(** The world in which the round of the [i]-th listed object starts, in the
    call of line 45: the listing is received and the rounds of the objects
    before it have run. *)
Definition roundStart (env : Env) (config : Config) (w : World) (i : nat) : World :=
  let c := sourceClient config in
  match client.ListObjects env c (listingInput config) w with
  | (w, Err _) => w
  | (w, Ok listObjectsOutput) =>
      (downloadLoop env c (Bucket (Source config)) (LocalDownloadPath (Source config))
         (firstn i (s3.Contents listObjectsOutput)) (w, [])).1.1
  end.

(** The same regular files, with the same bytes. *)
Definition same_files (m m' : gmap string Node) : Prop :=
  forall p data, m' !! p = Some (File data) <-> m !! p = Some (File data).

(** ** The direction of a request *)

(** A listing or a fetch sent to the source endpoint and bucket. *)
Definition reads_source (config : Config) (r : s3.Request) : Prop :=
  match r with
  | s3.ListObjectsReq c i =>
      c = sourceClient config /\ s3.li_Bucket i = Bucket (Source config)
  | s3.GetObjectReq c i =>
      c = sourceClient config /\ s3.gi_Bucket i = Bucket (Source config)
  | s3.PutObjectReq _ _ => False
  end.

(** A put sent to the destination endpoint and bucket. *)
Definition writes_destination (config : Config) (r : s3.Request) : Prop :=
  match r with
  | s3.PutObjectReq c i =>
      c = destClient config /\ s3.pi_Bucket i = Bucket (Destination config)
  | _ => False
  end.

(** ** Descriptors *)

(** The descriptors of the open files are below the next free one. *)
Definition fresh (w : World) : Prop :=
  Forall (fun g => (fd g < next_fd w)%nat) (open_files w).

(** The file [f] is none of the files of [d]. *)
Definition kept (d : list FileHandle) (g : FileHandle) : bool :=
  negb (existsb (fun f => Nat.eqb (fd g) (fd f)) d).

(** * Path names *)

Example clean_1 : filepath.Clean "a//b/./c/.." = "a/b". Proof. reflexivity. Qed.
Example clean_2 : filepath.Clean "/../a/" = "/a". Proof. reflexivity. Qed.
Example clean_3 : filepath.Clean "../../a/../.." = "../../..". Proof. reflexivity. Qed.
Example clean_4 : filepath.Clean "a/.." = ".". Proof. reflexivity. Qed.
Example join_1 : filepath.Join "./st/" "dir/c.txt" = "st/dir/c.txt". Proof. reflexivity. Qed.
Example dir_1 : filepath.Dir "st/dir/c.txt" = "st/dir". Proof. reflexivity. Qed.
Example dir_2 : filepath.Dir "c.txt" = ".". Proof. reflexivity. Qed.
Example dir_3 : filepath.Dir "/c.txt" = "/". Proof. reflexivity. Qed.
Example rel_1 : filepath.Rel "./st/" "st/dir/c.txt" = Ok "dir/c.txt". Proof. reflexivity. Qed.
Example rel_2 : filepath.Rel "/a/b" "/a/c/d" = Ok "../c/d". Proof. reflexivity. Qed.
Example rel_3 : filepath.Rel "/" "/x" = Ok "x". Proof. reflexivity. Qed.
Example rel_4 : filepath.Rel "a/b" "a" = Ok "..". Proof. reflexivity. Qed.
Example rel_5 : filepath.Rel "." "x/y" = Ok "x/y". Proof. reflexivity. Qed.
Example rel_6 : filepath.Rel "st" "st" = Ok ".". Proof. reflexivity. Qed.

Section PathTheory.
Import filepath.
Local Abbreviation Split := strings.Split.
Local Abbreviation Join := strings.Join.

Lemma Split_nonempty s : Split s <> [].
Proof. destruct s as [|c s]; simpl; [done|]. destruct (Ascii.eqb c "/"); [done|]. by destruct (Split s). Qed.

Lemma Split_app_sep a b : Split (a +:+ "/" +:+ b) = Split a ++ Split b.
Proof.
  induction a as [|c a IH]; simpl; [done|].
  destruct (Ascii.eqb c "/"); [by rewrite IH|].
  rewrite IH. destruct (Split a) as [|e r] eqn:E; [by apply Split_nonempty in E|done].
Qed.

Lemma Join_Split s : Join (Split s) = s.
Proof.
  induction s as [|c s IH]; simpl; [done|].
  destruct (Ascii.eqb c "/") eqn:Ec.
  - apply Ascii.eqb_eq in Ec as ->.
    destruct (Split s) as [|e r] eqn:E; [by apply Split_nonempty in E|].
    change (Join ("" :: e :: r)) with ("" +:+ "/" +:+ Join (e :: r)). by rewrite IH.
  - destruct (Split s) as [|e r] eqn:E; [by apply Split_nonempty in E|].
    destruct r as [|e' r]; simpl in *; by rewrite <- IH.
Qed.

Lemma Split_sep_free s : Forall sep_free (Split s).
Proof.
  induction s as [|c s IH]; simpl; [by repeat constructor|].
  destruct (Ascii.eqb c "/") eqn:Ec; [by constructor|].
  destruct (Split s) as [|e r] eqn:E; [by apply Split_nonempty in E|].
  inversion IH as [|? ? He Hr]; subst. constructor; [|done].
  unfold sep_free in *. simpl. by rewrite Ec, He.
Qed.

Lemma Split_Join l : l <> [] -> Forall sep_free l -> Split (Join l) = l.
Proof.
  induction l as [|e r IH]; [done|]. intros _ H. inversion H as [|? ? He Hr]; subst.
  destruct r as [|e' r]; [exact He|].
  change (Join (e :: e' :: r)) with (e +:+ "/" +:+ Join (e' :: r)).
  rewrite Split_app_sep, He, IH; done.
Qed.

Lemma sep_free_not_rooted e : sep_free e -> rooted e = false.
Proof.
  destruct e as [|c e]; [done|]. unfold sep_free, rooted, Separator. simpl.
  destruct (Ascii.eqb c "/"); [|done]. intros H.
  destruct (Split e) eqn:E; [by apply Split_nonempty in E|]. discriminate.
Qed.

Lemma normal_spec e : normal e = true <-> e <> "" /\ e <> "." /\ e <> "..".
Proof.
  unfold normal. rewrite !andb_true_iff, !negb_true_iff, !String.eqb_neq. tauto.
Qed.

Lemma wf_stack_nil rt : wf_stack rt [].
Proof. exists [], 0%nat. by repeat split. Qed.

Lemma wf_stack_push rt out segs :
  wf_stack rt out ->
  Forall (fun e => normal e = true /\ sep_free e) segs ->
  wf_stack rt (rev segs ++ out).
Proof.
  intros (tops & n & -> & Ht & Hn) Hs. exists (rev segs ++ tops), n.
  rewrite app_assoc. repeat split; [|done].
  apply Forall_app. split; [|done]. by apply Forall_rev.
Qed.

Lemma clean_step_normal rt out e : normal e = true -> clean_step rt out e = e :: out.
Proof.
  intros (H1 & H2 & H3)%normal_spec. unfold clean_step.
  apply String.eqb_neq in H1, H2, H3. by rewrite H1, H2, H3.
Qed.

Lemma clean_step_wf rt out e :
  sep_free e -> wf_stack rt out -> wf_stack rt (clean_step rt out e).
Proof.
  intros He Hw. destruct (normal e) eqn:Hn.
  { rewrite clean_step_normal by done.
    apply (wf_stack_push rt out [e]); [done|]. by repeat constructor. }
  unfold clean_step.
  destruct (String.eqb e "" || String.eqb e ".") eqn:E1; [done|].
  apply orb_false_iff in E1 as [E1 E2].
  destruct (String.eqb e "..") eqn:E3.
  2:{ unfold normal in Hn. by rewrite E1, E2, E3 in Hn. }
  apply String.eqb_eq in E3 as ->.
  destruct Hw as (tops & n & -> & Ht & Hr).
  destruct tops as [|t tops]; simpl.
  - destruct n as [|n]; simpl.
    + destruct rt; [apply wf_stack_nil|]. exists [], 1%nat. by repeat split.
    + exists [], (S (S n)). repeat split; [done|]. intros H. by specialize (Hr H).
  - inversion Ht as [|? ? [Hn' _] Ht']; subst.
    apply normal_spec in Hn' as (_ & _ & Hdd). apply String.eqb_neq in Hdd. rewrite Hdd.
    by exists tops, n.
Qed.

Lemma fold_clean_step_wf rt l out :
  Forall sep_free l -> wf_stack rt out -> wf_stack rt (fold_left (clean_step rt) l out).
Proof.
  intros H. revert out. induction H as [|e l He Hl IH]; intros out Hw; simpl; [done|].
  apply IH. by apply clean_step_wf.
Qed.

Lemma clean_elems_wf p : wf_stack (rooted p) (clean_elems p).
Proof. apply fold_clean_step_wf; [apply Split_sep_free | apply wf_stack_nil]. Qed.

Lemma fold_clean_step_push rt segs out :
  Forall (fun e => normal e = true) segs ->
  fold_left (clean_step rt) segs out = rev segs ++ out.
Proof.
  intros H. revert out. induction H as [|e l He Hl IH]; intros out; simpl; [done|].
  rewrite clean_step_normal by done. rewrite IH. by rewrite <- app_assoc.
Qed.

Lemma fold_clean_step_dotdot n out :
  fold_left (clean_step false) (repeat ".." n) (repeat ".." out) = repeat ".." (n + out).
Proof.
  revert out. induction n as [|n IH]; intros out; simpl; [done|].
  replace (clean_step false (repeat ".." out) "..") with (repeat ".." (S out)).
  - rewrite IH. by rewrite Nat.add_succ_r.
  - unfold clean_step. simpl. by destruct out.
Qed.

Lemma Clean_unfold p : Clean p = render (rooted p) (clean_elems p).
Proof. unfold Clean. destruct (String.eqb_spec p ""); [by subst|done]. Qed.

Lemma wf_stack_sep_free rt out : wf_stack rt out -> Forall sep_free out.
Proof.
  intros (tops & n & -> & Ht & _). apply Forall_app. split.
  - eapply Forall_impl; [exact Ht|]. by intros ? [_ ?].
  - clear. induction n; simpl; constructor; done.
Qed.

Lemma wf_stack_nonempty rt out : wf_stack rt out -> Forall (fun e => e <> "") out.
Proof.
  intros (tops & n & -> & Ht & _). apply Forall_app. split.
  - eapply Forall_impl; [exact Ht|]. intros ? [H _]. by apply normal_spec in H as [? _].
  - clear. induction n; simpl; constructor; done.
Qed.

Lemma Split_render rt out :
  wf_stack rt out ->
  Split (render rt out) =
    match rt, out with
    | true, [] => [ ""; "" ]
    | true, _ => "" :: rev out
    | false, [] => [ "." ]
    | false, _ => rev out
    end.
Proof.
  intros Hw. pose proof (wf_stack_sep_free _ _ Hw) as Hs.
  unfold render. destruct rt, out as [|e out]; try done.
  - change (Split ("/" +:+ Join (rev (e :: out)))) with ("" :: Split (Join (rev (e :: out)))).
    rewrite Split_Join; [done| |by apply Forall_rev].
    simpl. by destruct (rev out).
  - rewrite Split_Join; [done| |by apply Forall_rev].
    simpl. by destruct (rev out).
Qed.

Lemma Join_head_rooted l :
  match l with e :: _ => e <> "" /\ sep_free e | [] => True end ->
  rooted (Join l) = false /\ (l <> [] -> Join l <> "").
Proof.
  destruct l as [|e r]; [done|]. intros [Hne Hs].
  assert (rooted (Join (e :: r)) = rooted e /\ Join (e :: r) <> "") as [-> ?].
  { destruct e as [|c e]; [done|]. destruct r; simpl; done. }
  split; [by apply sep_free_not_rooted|done].
Qed.

Lemma rooted_render rt out :
  wf_stack rt out -> rooted (render rt out) = rt /\ render rt out <> "".
Proof.
  intros Hw. unfold render. destruct rt; [done|]. destruct out as [|e out]; [done|].
  pose proof (wf_stack_sep_free _ _ Hw) as Hs%Forall_rev.
  pose proof (wf_stack_nonempty _ _ Hw) as Hn%Forall_rev.
  destruct (Join_head_rooted (rev (e :: out))) as [H1 H2].
  - destruct (rev (e :: out)); [done|]. by inversion Hs; inversion Hn; subst.
  - split; [done|]. apply H2. simpl. by destruct (rev out).
Qed.

Lemma clean_elems_render rt out :
  wf_stack rt out -> clean_elems (render rt out) = out.
Proof.
  intros Hw. unfold clean_elems.
  destruct (rooted_render _ _ Hw) as [-> _]. rewrite Split_render by done.
  destruct Hw as (tops & n & -> & Ht & Hn).
  assert (Forall (fun e => normal e = true) (rev tops)) as Hnorm.
  { apply Forall_rev. eapply Forall_impl; [exact Ht|]. by intros ? [? _]. }
  destruct rt.
  - rewrite (Hn eq_refl) in *. simpl. rewrite app_nil_r.
    destruct tops as [|t tops]; [done|].
    change (fold_left (clean_step true) ("" :: rev (t :: tops)) [])
      with (fold_left (clean_step true) (rev (t :: tops)) []).
    rewrite fold_clean_step_push by done. by rewrite rev_involutive, app_nil_r.
  - assert (fold_left (clean_step false) (rev (tops ++ repeat ".." n)) []
            = tops ++ repeat ".." n) as Hfold.
    { rewrite rev_app_distr, fold_left_app.
      replace (rev (repeat ".." n)) with (repeat ".." n).
      2:{ clear. induction n; simpl; [done|]. rewrite <- IHn.
          clear. induction n; simpl; [done|]. by rewrite <- IHn. }
      pose proof (fold_clean_step_dotdot n 0) as Hd.
      rewrite Nat.add_0_r in Hd. change (repeat ".." 0) with (@nil string) in Hd.
      rewrite Hd.
      rewrite fold_clean_step_push by done. by rewrite rev_involutive. }
    destruct (tops ++ repeat ".." n) eqn:E; [done|]. exact Hfold.
Qed.

Lemma Clean_render rt out : wf_stack rt out -> Clean (render rt out) = render rt out.
Proof.
  intros Hw. rewrite Clean_unfold, clean_elems_render by done.
  by destruct (rooted_render _ _ Hw) as [-> _].
Qed.

(** [Clean] is idempotent. *)
Lemma Clean_idempotent p : Clean (Clean p) = Clean p.
Proof. rewrite (Clean_unfold p). apply Clean_render, clean_elems_wf. Qed.

Lemma render_inj rt out1 out2 :
  wf_stack rt out1 -> wf_stack rt out2 -> render rt out1 = render rt out2 -> out1 = out2.
Proof.
  intros H1 H2 E. rewrite <- (clean_elems_render rt out1), <- (clean_elems_render rt out2) by done.
  by rewrite E.
Qed.

Lemma clean_key_segs K :
  clean_key K = true ->
  Forall (fun e => normal e = true /\ sep_free e) (Split K).
Proof.
  unfold clean_key. rewrite forallb_forall. intros H.
  pose proof (Split_sep_free K) as Hs. rewrite Forall_forall in *.
  intros e He. split; [apply H, list_elem_of_In, He | apply Hs, He].
Qed.

Lemma segs_normal segs :
  Forall (fun e => normal e = true /\ sep_free e) segs ->
  Forall (fun e => normal e = true) segs.
Proof. intros H. eapply Forall_impl; [exact H|]. by intros ? [? _]. Qed.

Lemma Join_clean_key root K :
  clean_key K = true ->
  filepath.Join root K = render (rooted root) (rev (Split K) ++ clean_elems root).
Proof.
  intros HK. pose proof (clean_key_segs K HK) as Hsegs.
  unfold filepath.Join. destruct (String.eqb_spec root "") as [->|Hroot].
  - destruct (String.eqb_spec K "") as [->|HKne]; [done|].
    rewrite Clean_unfold. unfold clean_elems at 1.
    rewrite fold_clean_step_push by by apply segs_normal.
    f_equal. rewrite <- (Join_Split K). apply Join_head_rooted.
    destruct (Split K) as [|e r]; [done|]. inversion Hsegs as [|? ? [Hn ?] ?]; subst.
    by apply normal_spec in Hn as [? _].
  - rewrite Clean_unfold. unfold clean_elems at 1.
    assert (rooted (root +:+ "/" +:+ K) = rooted root) as -> by by destruct root.
    rewrite Split_app_sep, fold_left_app.
    by rewrite fold_clean_step_push by by apply segs_normal.
Qed.

Lemma elements_render rt out :
  wf_stack rt out -> rt = true \/ out <> [] ->
  elements (render rt out) = stack_elements rt out.
Proof.
  intros Hw Hne. unfold elements. rewrite Split_render by done.
  pose proof (wf_stack_nonempty _ _ Hw) as Hn.
  destruct rt, out as [|e out]; try done.
  2: by destruct Hne as [|[]].
  - inversion Hn; subst. change (rev ("" :: rev (e :: out))) with (rev (rev (e :: out)) ++ [ "" ]).
    rewrite rev_involutive. by destruct e.
  - inversion Hn; subst. rewrite rev_involutive. by destruct e.
Qed.

Lemma strip_common_app l r : strip_common l (l ++ r) = ([], r).
Proof.
  induction l as [|x l IH]; simpl; [by destruct r|]. by rewrite String.eqb_refl.
Qed.

(** The relative path from a directory to a path made of real names below
    it is the chain of these names. *)
Lemma Rel_below base rt out segs :
  Clean base = render rt out -> wf_stack rt out ->
  Forall (fun e => normal e = true /\ sep_free e) segs -> segs <> [] ->
  Rel base (render rt (rev segs ++ out)) = Ok (Join segs).
Proof.
  intros Hbase Hw Hsegs Hne.
  pose proof (wf_stack_push _ _ _ Hw Hsegs) as Hw'.
  unfold Rel. rewrite (Clean_render _ _ Hw'), Hbase.
  destruct (rooted_render _ _ Hw) as [Hr1 _]. destruct (rooted_render _ _ Hw') as [Hr2 _].
  destruct (String.eqb_spec (render rt (rev segs ++ out)) (render rt out)) as [E|_].
  { apply render_inj in E; [|done..]. apply (f_equal length) in E.
    rewrite length_app, length_rev in E. destruct segs; [done|simpl in E; lia]. }
  assert (rooted (if String.eqb (render rt out) "." then "" else render rt out) = rt
          /\ elements (if String.eqb (render rt out) "." then "" else render rt out)
             = stack_elements rt out) as [-> ->].
  { destruct (String.eqb_spec (render rt out) ".") as [E|E].
    - rewrite E in Hr1. simpl in Hr1. subst rt.
      apply (render_inj false out []) in E; [by subst|done|apply wf_stack_nil].
    - split; [done|]. apply elements_render; [done|].
      destruct rt; [by left|right]. by intros ->. }
  assert (rev segs ++ out <> []) as Hne'.
  { intros E%(f_equal length). rewrite length_app, length_rev in E.
    destruct segs; [done|simpl in E; lia]. }
  rewrite Hr2, elements_render by (by try right).
  replace (negb (Bool.eqb rt rt)) with false by by destruct rt.
  unfold stack_elements. rewrite rev_app_distr, rev_involutive. destruct rt.
  - change ("" :: rev out ++ segs) with (("" :: rev out) ++ segs).
    by rewrite strip_common_app.
  - by rewrite strip_common_app.
Qed.

Lemma ToSlash_id p : ToSlash p = p.
Proof.
  induction p as [|c p IH]; simpl; [done|]. rewrite IH. unfold Separator.
  destruct (Ascii.eqb_spec c "/"); by subst.
Qed.

Lemma TrimPrefix_dot_slash K :
  head (Split K) <> Some "." -> strings.TrimPrefix K "./" = K.
Proof.
  intros H. unfold strings.TrimPrefix.
  destruct (strings.cut_prefix K "./") as [r|] eqn:E; [|done].
  exfalso. apply H.
  destruct K as [|c1 [|c2 K]]; cbn [strings.cut_prefix] in E;
    [done|by destruct (Ascii.eqb "." c1)|].
  destruct (Ascii.eqb_spec "."%char c1) as [<-|]; [|done].
  destruct (Ascii.eqb_spec "/"%char c2) as [<-|]; [|done].
  cbn [strings.Split].
  change (Ascii.eqb "." "/") with false. change (Ascii.eqb "/" "/") with true.
  done.
Qed.

(** The staging path of a key made of real names maps back to the key. *)
Lemma round_trip_clean_key localPath K :
  clean_key K = true ->
  toObjectKey localPath (toLocalPath localPath K) = K.
Proof.
  intros HK. pose proof (clean_key_segs K HK) as Hsegs.
  unfold toObjectKey, toLocalPath. rewrite Join_clean_key by done.
  rewrite (Rel_below localPath (rooted localPath) (clean_elems localPath) (Split K)).
  - rewrite ToSlash_id, Join_Split. apply TrimPrefix_dot_slash.
    destruct (Split K) as [|e r]; [done|]. simpl. intros [= ->].
    by inversion Hsegs as [|? ? [? _] ?].
  - apply Clean_unfold.
  - apply clean_elems_wf.
  - done.
  - apply Split_nonempty.
Qed.

End PathTheory.

(** C5 (amended). For every staging root and every key whose pieces
    between slashes are real names (none is empty, [.] or [..]), the staging
    path of the key maps back to the key. *)
Theorem C5_round_trip_clean_keys localPath K :
  clean_key K = true ->
  toObjectKey localPath (toLocalPath localPath K) = K.
Proof. apply round_trip_clean_key. Qed.

Lemma C5_round_trip_clean_keys_witness :
  clean_key "dir/c.txt" = true /\
  toObjectKey "./staging/" (toLocalPath "./staging/" "dir/c.txt") = "dir/c.txt".
Proof. split; [reflexivity|]. apply C5_round_trip_clean_keys. reflexivity. Defined.

(** C5 as stated fails: [Join] cleans the path, and the doubled slash of
    the key [a//b] is lost on the way. *)
Lemma C5_counterexample :
  toObjectKey "staging" (toLocalPath "staging" "a//b") <> "a//b".
Proof. vm_compute. discriminate. Qed.

Example round_trip_marker : toObjectKey "staging" (toLocalPath "staging" "dir/") = "dir".
Proof. reflexivity. Qed.

Example round_trip_dot_dot : toObjectKey "staging" (toLocalPath "staging" "a/../b") = "b".
Proof. reflexivity. Qed.

(** * The file system operations *)

Lemma Clean_nonempty p : filepath.Clean p <> "".
Proof.
  rewrite Clean_unfold. apply rooted_render, clean_elems_wf.
Qed.

Lemma Join_cleaned a b : filepath.Join a b <> "" -> filepath.Clean (filepath.Join a b) = filepath.Join a b.
Proof.
  unfold filepath.Join. destruct (String.eqb a "").
  - destruct (String.eqb b ""); [done|]. intros _. apply Clean_idempotent.
  - intros _. apply Clean_idempotent.
Qed.

Lemma inits_last {A} (l : list A) : l <> [] -> In l (os.inits l).
Proof.
  induction l as [|x l IH]; [done|]. intros _. simpl.
  destruct l as [|y l]; [by left|]. right. apply in_map, IH. done.
Qed.

Lemma chain_self p : p <> "" -> In p (os.chain p).
Proof.
  intros Hp. unfold os.chain. apply filter_In. split.
  - rewrite <- (Join_Split p) at 1. apply in_map, inits_last, Split_nonempty.
  - by apply negb_true_iff, String.eqb_neq.
Qed.

Lemma lookup_mkdirs (m : gmap string Node) dirs p :
  foldr (fun d m => <[d := Directory]> m) m dirs !! p
  = if decide (p ∈ dirs) then Some Directory else m !! p.
Proof.
  induction dirs as [|d dirs IH]; simpl; [done|].
  destruct (decide (d = p)) as [->|Hne].
  - rewrite lookup_insert_eq. clear IH.
    destruct (decide (p ∈ p :: dirs)) as [|H]; [done|]. destruct H. apply elem_of_cons. by left.
  - rewrite lookup_insert_ne by done. rewrite IH. clear IH.
    destruct (decide (p ∈ dirs)) as [H|H], (decide (p ∈ d :: dirs)) as [H'|H']; try done.
    + destruct H'. apply elem_of_cons. by right.
    + apply elem_of_cons in H' as [->|]; done.
Qed.

Section Os.
Context (env : Env).

Lemma MkdirAll_err path w w' e : os.MkdirAll env path w = (w', Some e) -> w' = w.
Proof.
  unfold os.MkdirAll. destruct (String.eqb path ""); [congruence|].
  destruct (os_fault env OpMkdirAll path); [congruence|].
  destruct (existsb _ _); congruence.
Qed.

Lemma MkdirAll_ok path w w' :
  os.MkdirAll env path w = (w', None) ->
  (forall p data, fs w' !! p = Some (File data) <-> fs w !! p = Some (File data)) /\
  (forall p, fs w !! p = Some Directory -> fs w' !! p = Some Directory) /\
  fs w' !! filepath.Clean path = Some Directory /\
  open_files w' = open_files w /\ next_fd w' = next_fd w /\
  stdout w' = stdout w /\ requests w' = requests w.
Proof.
  unfold os.MkdirAll. destruct (String.eqb path ""); [congruence|].
  destruct (os_fault env OpMkdirAll path); [congruence|].
  destruct (existsb _ _) eqn:Hex; [congruence|]. intros [= <-]. simpl.
  assert (forall p, p ∈ os.chain (filepath.Clean path) -> forall data, fs w !! p <> Some (File data)) as Hnf.
  { intros p Hp%list_elem_of_In data E. apply not_true_iff_false in Hex. apply Hex.
    apply existsb_exists. exists p. split; [done|]. unfold os.is_file. by rewrite E. }
  repeat split; try done.
  - rewrite lookup_mkdirs. by case_decide.
  - rewrite lookup_mkdirs. case_decide as Hin; [|done].
    intros E. by apply Hnf in E.
  - intros p E. rewrite lookup_mkdirs. by case_decide.
  - rewrite lookup_mkdirs. case_decide as H; [done|].
    destruct H. apply list_elem_of_In, chain_self, Clean_nonempty.
Qed.

Lemma Create_err name w w' e : os.Create env name w = (w', Err e) -> w' = w.
Proof.
  unfold os.Create. destruct (String.eqb name ""); [congruence|].
  destruct (os_fault env OpCreate name); [congruence|].
  destruct (fs w !! filepath.Clean name) as [[]|], (fs w !! filepath.Dir (filepath.Clean name)) as [[]|];
    congruence.
Qed.

Lemma Create_ok name w w' f :
  os.Create env name w = (w', Ok f) ->
  name <> "" /\ fname f = name /\
  fs w' = <[filepath.Clean name := File []]> (fs w) /\
  fs w !! filepath.Clean name <> Some Directory /\
  open_files w' = f :: open_files w /\
  stdout w' = stdout w /\ requests w' = requests w.
Proof.
  unfold os.Create. destruct (String.eqb_spec name ""); [congruence|].
  destruct (os_fault env OpCreate name); [congruence|].
  destruct (fs w !! filepath.Clean name) as [[]|], (fs w !! filepath.Dir (filepath.Clean name)) as [[]|];
    try congruence; intros [= <- <-]; simpl; done.
Qed.

Lemma Copy_spec f body w w' r :
  io.Copy env f body w = (w', r) ->
  exists written,
    fs w' = <[filepath.Clean (fname f) := File (os.contents f w ++ written)]> (fs w) /\
    (r = None -> written = body) /\
    open_files w' = open_files w /\ stdout w' = stdout w /\ requests w' = requests w.
Proof.
  unfold io.Copy. destruct (copy_fault env (fname f)) as [[n e]|]; intros [= <- <-].
  - by exists (firstn n body).
  - by exists body.
Qed.

End Os.

(** * The download phase *)

(** Splits a hypothesis on a round of the download loop into the six ways
    the round can end. *)
Ltac round_cases H :=
  unfold downloadObject, client.GetObject in H;
  repeat match type of H with
    | context [os.MkdirAll ?e ?p ?w] =>
        let E := fresh "Hmkdir" in destruct (os.MkdirAll e p w) as [? [?|]] eqn:E
    | context [s3_GetObject ?e ?c ?i] =>
        let E := fresh "Hget" in destruct (s3_GetObject e c i) as [?|?] eqn:E
    | context [Z.gtb ?x 0] =>
        let E := fresh "Hsize" in destruct (Z.gtb_spec x 0) as [E|E]
    | context [os.Create ?e ?p ?w] =>
        let E := fresh "Hcreate" in destruct (os.Create e p w) as [? [?|?]] eqn:E
    | context [io.Copy ?e ?f ?b ?w] =>
        let E := fresh "Hcopy" in destruct (io.Copy e f b w) as [? [?|]] eqn:E
    end;
  inversion H; subst; clear H.

(** Replaces each hypothesis on a call of the operating system by what it
    says about the fields of the world. *)
Ltac os_facts :=
  repeat match goal with
    | H : os.MkdirAll _ _ _ = (_, Some _) |- _ => apply MkdirAll_err in H; subst
    | H : os.MkdirAll _ _ _ = (_, None) |- _ =>
        apply MkdirAll_ok in H;
        destruct H as (?Hfiles & ?Hdirs & ?Hdir & ?Hopen & ?Hfd & ?Hout & ?Hreq)
    | H : os.Create _ _ _ = (_, Err _) |- _ => apply Create_err in H; subst
    | H : os.Create _ _ _ = (_, Ok _) |- _ =>
        apply Create_ok in H;
        destruct H as (?Hname & ?Hfname & ?Hfs & ?Hnodir & ?Hopen & ?Hout & ?Hreq)
    | H : io.Copy _ _ _ _ = _ |- _ =>
        apply Copy_spec in H;
        destruct H as (?written & ?Hfs & ?Hwritten & ?Hopen & ?Hout & ?Hreq)
    end;
  simpl in *.

(** Takes one round off a hypothesis on the loop. *)
Ltac loop_step H w1 d1 oc Hround rs Hloop :=
  cbn [downloadLoop] in H;
  match type of H with
  | context [downloadObject ?e ?c ?b ?l ?o ?st] =>
      destruct (downloadObject e c b l o st) as [[w1 d1] oc] eqn:Hround
  end;
  match type of H with
  | context [downloadLoop ?e ?c ?b ?l ?os ?st] =>
      destruct (downloadLoop e c b l os st) as [[? ?] rs] eqn:Hloop
  end;
  inversion H; subst; clear H.

Section Download.
Context (env : Env) (c : s3.Client) (bucket localPath : string).

Local Abbreviation round := (downloadObject env c bucket localPath).
Local Abbreviation loop := (downloadLoop env c bucket localPath).
Local Abbreviation path_of := (fun o : s3.Object => toLocalPath localPath (s3.Key o)).

Lemma round_requests_spec o w d w' d' oc :
  round o (w, d) = (w', d', oc) ->
  requests w' = requests w ++ round_requests c bucket (o, oc).
Proof.
  intros H. round_cases H; unfold round_requests; os_facts;
    rewrite ?app_nil_r; congruence.
Qed.

Lemma round_stdout_get_failed o w d w' d' :
  round o (w, d) = (w', d', GetFailed) ->
  exists err,
    s3_GetObject env c {| s3.gi_Bucket := bucket; s3.gi_Key := s3.Key o |} = Err err /\
    stdout w' = stdout w ++ [ sprint [ "Error getting object:"; s3.Key o; err ] ].
Proof.
  intros H. round_cases H; os_facts. eexists. split; [done|]. congruence.
Qed.

Lemma round_dirs o w d w' d' oc p :
  round o (w, d) = (w', d', oc) ->
  fs w !! p = Some Directory -> fs w' !! p = Some Directory.
Proof.
  intros H Hp. round_cases H; os_facts; auto.
  all: rewrite Hfs0, Hfs; rewrite Hfname.
  all: rewrite !lookup_insert_ne; [by auto|intros <-..]; by apply Hnodir, Hdirs.
Qed.

Lemma round_handles o w d w' d' oc :
  round o (w, d) = (w', d', oc) ->
  exists new,
    d' = new ++ d /\ open_files w' = new ++ open_files w /\
    length new = if wrote oc then 1%nat else 0%nat.
Proof.
  intros H. round_cases H; os_facts.
  all: try (exists []; split; [done|]; split; [simpl; congruence|done]).
  all: eexists [ _ ]; split; [done|]; split; [simpl; congruence|done].
Qed.

Lemma round_size o w d w' d' oc :
  round o (w, d) = (w', d', oc) ->
  s3.Size o <= 0 -> oc = MkdirFailed \/ oc = GetFailed \/ oc = NothingWritten.
Proof. intros H Hs. round_cases H; auto; lia. Qed.

Lemma round_files_same o w d w' d' oc :
  round o (w, d) = (w', d', oc) -> wrote oc = false ->
  forall p data, fs w' !! p = Some (File data) <-> fs w !! p = Some (File data).
Proof. intros H Hw. round_cases H; try done; os_facts; auto. Qed.

Lemma round_files_wrote o w d w' d' oc :
  round o (w, d) = (w', d', oc) -> wrote oc = true ->
  0 < s3.Size o /\
  exists body data,
    s3_GetObject env c {| s3.gi_Bucket := bucket; s3.gi_Key := s3.Key o |} = Ok body /\
    fs w' !! path_of o = Some (File data) /\
    (oc = Downloaded -> data = body) /\
    (forall p, p <> path_of o ->
       forall x, fs w' !! p = Some (File x) <-> fs w !! p = Some (File x)).
Proof.
  intros H Hw. round_cases H; try done; os_facts.
  all: split; [done|].
  all: assert (filepath.Clean (toLocalPath localPath (s3.Key o)) = toLocalPath localPath (s3.Key o))
    as Hclean by (apply Join_cleaned; done).
  all: rewrite Hfname, Hclean in *.
  all: unfold os.contents in *; rewrite Hfname, Hclean, Hfs in *; rewrite lookup_insert_eq in *.
  all: eexists _, _; split; [done|]; rewrite Hfs0.
  all: split; [apply lookup_insert_eq|]; split; [try done|].
  all: try (intros _; simpl; by rewrite Hwritten).
  all: intros p Hp x; rewrite !lookup_insert_ne by done; apply Hfiles.
Qed.

Lemma round_file_persist o w d w' d' oc p x :
  round o (w, d) = (w', d', oc) -> fs w !! p = Some (File x) ->
  exists x', fs w' !! p = Some (File x') /\
             ((wrote oc = true -> path_of o <> p) -> x' = x).
Proof.
  intros H Hp. destruct (wrote oc) eqn:Hw.
  - destruct (round_files_wrote _ _ _ _ _ _ H Hw) as (_ & body & data & _ & Hat & _ & Hother).
    destruct (decide (p = path_of o)) as [->|Hne].
    + exists data. split; [done|]. intros Hc. by destruct Hc.
    + exists x. split; [|done]. by apply Hother.
  - exists x. split; [|done]. by apply (round_files_same _ _ _ _ _ _ H Hw).
Qed.

Lemma loop_objects objs w d w' d' rs :
  loop objs (w, d) = (w', d', rs) -> map fst rs = objs.
Proof.
  revert w d w' d' rs. induction objs as [|o objs IH]; intros w d w' d' rs H.
  - by inversion H.
  - loop_step H w1 d1 oc Hround rs1 Hloop. simpl. f_equal. eauto.
Qed.

Lemma loop_requests objs w d w' d' rs :
  loop objs (w, d) = (w', d', rs) ->
  requests w' = requests w ++ concat (map (round_requests c bucket) rs).
Proof.
  revert w d w' d' rs. induction objs as [|o objs IH]; intros w d w' d' rs H.
  - inversion H; subst. simpl. by rewrite app_nil_r.
  - loop_step H w1 d1 oc Hround rs1 Hloop. simpl.
    rewrite (IH _ _ _ _ _ Hloop), (round_requests_spec _ _ _ _ _ _ Hround).
    by rewrite <- app_assoc.
Qed.

Lemma loop_dirs objs w d w' d' rs p :
  loop objs (w, d) = (w', d', rs) ->
  fs w !! p = Some Directory -> fs w' !! p = Some Directory.
Proof.
  revert w d w' d' rs. induction objs as [|o objs IH]; intros w d w' d' rs H Hp.
  - by inversion H; subst.
  - loop_step H w1 d1 oc Hround rs1 Hloop. eapply IH; [done|]. by eapply round_dirs.
Qed.

Lemma loop_handles objs w d w' d' rs :
  loop objs (w, d) = (w', d', rs) ->
  exists new,
    d' = new ++ d /\ open_files w' = new ++ open_files w /\
    length new = length (List.filter (fun r : s3.Object * Outcome => wrote r.2) rs).
Proof.
  revert w d w' d' rs. induction objs as [|o objs IH]; intros w d w' d' rs H.
  - inversion H; subst. by exists [].
  - loop_step H w1 d1 oc Hround rs1 Hloop.
    destruct (round_handles _ _ _ _ _ _ Hround) as (n1 & -> & Ho1 & Hl1).
    destruct (IH _ _ _ _ _ Hloop) as (n2 & -> & Ho2 & Hl2).
    exists (n2 ++ n1). rewrite Ho2, Ho1, <- !app_assoc. repeat split.
    rewrite length_app, Hl1, Hl2. simpl. destruct (wrote oc); simpl; lia.
Qed.

Lemma loop_files_origin objs w d w' d' rs p data :
  loop objs (w, d) = (w', d', rs) ->
  fs w' !! p = Some (File data) ->
  fs w !! p = Some (File data) \/
  exists o oc, In (o, oc) rs /\ wrote oc = true /\ p = path_of o /\ 0 < s3.Size o.
Proof.
  revert w d w' d' rs. induction objs as [|o objs IH]; intros w d w' d' rs H Hp.
  - inversion H; subst. by left.
  - loop_step H w1 d1 oc Hround rs1 Hloop.
    destruct (IH _ _ _ _ _ Hloop Hp) as [Hp1|(o' & oc' & Hin & ? & ? & ?)].
    2:{ right. exists o', oc'. repeat split; try done. by right. }
    destruct (wrote oc) eqn:Hw.
    + destruct (round_files_wrote _ _ _ _ _ _ Hround Hw) as (Hs & _ & _ & _ & _ & _ & Hother).
      destruct (decide (p = path_of o)) as [->|Hne].
      * right. exists o, oc. repeat split; try done. by left.
      * left. by apply Hother.
    + left. by apply (round_files_same _ _ _ _ _ _ Hround Hw).
Qed.

Lemma loop_file_persist objs w d w' d' rs p x :
  loop objs (w, d) = (w', d', rs) -> fs w !! p = Some (File x) ->
  exists x', fs w' !! p = Some (File x') /\
             ((forall r, In r rs -> wrote r.2 = true -> path_of r.1 <> p) -> x' = x).
Proof.
  revert w d w' d' rs x. induction objs as [|o objs IH]; intros w d w' d' rs x H Hp.
  - inversion H; subst. by exists x.
  - loop_step H w1 d1 oc Hround rs1 Hloop.
    destruct (round_file_persist _ _ _ _ _ _ _ _ Hround Hp) as (x1 & Hp1 & Hx1).
    destruct (IH _ _ _ _ _ _ Hloop Hp1) as (x2 & Hp2 & Hx2).
    exists x2. split; [done|]. intros Hno. rewrite Hx2, Hx1; [done| |].
    + apply (Hno (o, oc)). by left.
    + intros r Hr. apply Hno. by right.
Qed.

Lemma loop_files_downloaded objs w d w' d' rs i o :
  loop objs (w, d) = (w', d', rs) ->
  rs !! i = Some (o, Downloaded) ->
  exists data,
    fs w' !! path_of o = Some (File data) /\
    forall body,
      s3_GetObject env c {| s3.gi_Bucket := bucket; s3.gi_Key := s3.Key o |} = Ok body ->
      (forall j r, (i < j)%nat -> rs !! j = Some r -> wrote r.2 = true ->
                   path_of r.1 <> path_of o) ->
      data = body.
Proof.
  revert w d w' d' rs i. induction objs as [|o1 objs IH]; intros w d w' d' rs i H Hi.
  - by inversion H; subst.
  - loop_step H w1 d1 oc Hround rs1 Hloop. destruct i as [|i]; simpl in Hi.
    + inversion Hi; subst.
      destruct (round_files_wrote _ _ _ _ _ _ Hround eq_refl)
        as (_ & body & data & Hget & Hat & Hdata & _).
      destruct (loop_file_persist _ _ _ _ _ _ _ _ Hloop Hat) as (x' & Hp' & Hx').
      exists x'. split; [done|]. intros body' Hget' Hlater.
      rewrite Hx'; [rewrite Hdata by done; congruence|].
      intros r [j Hj]%list_elem_of_In%list_elem_of_lookup Hw.
      apply (Hlater (S j) r); [lia|done|done].
    + destruct (IH _ _ _ _ _ _ Hloop Hi) as (data & Hat & Hbody).
      exists data. split; [done|]. intros body Hget Hlater. apply Hbody; [done|].
      intros j r Hj. apply (Hlater (S j) r). lia.
Qed.

End Download.

Lemma run_deferred_fields d w :
  fs (run_deferred d w) = fs w /\ stdout (run_deferred d w) = stdout w /\
  requests (run_deferred d w) = requests w.
Proof.
  revert w. induction d as [|f d IH]; intros w; [done|].
  simpl. destruct (IH (os.Close f w)) as (-> & -> & ->). done.
Qed.

Lemma round_stdout_mono env c bucket localPath o w d w' d' oc :
  downloadObject env c bucket localPath o (w, d) = (w', d', oc) ->
  exists l, stdout w' = stdout w ++ l.
Proof.
  intros H. round_cases H; os_facts.
  all: repeat match goal with E : stdout _ = _ |- _ => rewrite E; clear E end; simpl.
  all: try (eexists; reflexivity).
  exists []. by rewrite app_nil_r.
Qed.

Lemma round_nothing_written env c bucket localPath o w d w' d' :
  downloadObject env c bucket localPath o (w, d) = (w', d', NothingWritten) ->
  s3.Size o <= 0.
Proof. intros H. round_cases H. lia. Qed.

Lemma loop_stdout_mono env c bucket localPath objs w d w' d' rs :
  downloadLoop env c bucket localPath objs (w, d) = (w', d', rs) ->
  exists l, stdout w' = stdout w ++ l.
Proof.
  revert w d w' d' rs. induction objs as [|o objs IH]; intros w d w' d' rs H.
  - inversion H; subst. exists []. by rewrite app_nil_r.
  - loop_step H w1 d1 oc Hround rs1 Hloop.
    destruct (round_stdout_mono _ _ _ _ _ _ _ _ _ _ Hround) as [l1 E1].
    destruct (IH _ _ _ _ _ Hloop) as [l2 E2].
    exists (l1 ++ l2). by rewrite E2, E1, app_assoc.
Qed.

Lemma loop_get_failed env c bucket localPath objs w d w' d' rs o :
  downloadLoop env c bucket localPath objs (w, d) = (w', d', rs) ->
  In (o, GetFailed) rs ->
  exists err,
    s3_GetObject env c {| s3.gi_Bucket := bucket; s3.gi_Key := s3.Key o |} = Err err /\
    In (sprint [ "Error getting object:"; s3.Key o; err ]) (stdout w').
Proof.
  revert w d w' d' rs. induction objs as [|o1 objs IH]; intros w d w' d' rs H Hin.
  - by inversion H; subst.
  - loop_step H w1 d1 oc Hround rs1 Hloop. destruct Hin as [[= -> ->]|Hin].
    + apply round_stdout_get_failed in Hround as (err & Hget & Hout).
      destruct (loop_stdout_mono _ _ _ _ _ _ _ _ _ _ Hloop) as [l E].
      exists err. split; [done|]. rewrite E, Hout. apply in_or_app. left.
      apply in_or_app. right. by left.
    + eauto.
Qed.

Lemma loop_outcome_size env c bucket localPath objs w d w' d' rs o oc :
  downloadLoop env c bucket localPath objs (w, d) = (w', d', rs) ->
  In (o, oc) rs ->
  (s3.Size o <= 0 -> oc = MkdirFailed \/ oc = GetFailed \/ oc = NothingWritten) /\
  (oc = NothingWritten -> s3.Size o <= 0).
Proof.
  revert w d w' d' rs. induction objs as [|o1 objs IH]; intros w d w' d' rs H Hin.
  - by inversion H; subst.
  - loop_step H w1 d1 oc1 Hround rs1 Hloop. destruct Hin as [[= -> ->]|Hin].
    + split; [by eapply round_size|]. intros ->. by eapply round_nothing_written.
    + eauto.
Qed.

Section DownloadFiles.
Context (env : Env) (accessKey secretKey endpoint bucket localPath region : string).

Local Abbreviation c := (client.New endpoint accessKey secretKey region).
Local Abbreviation listing := {| s3.li_Bucket := bucket; s3.li_Marker := None |}.
Local Abbreviation download :=
  (downloadFiles env accessKey secretKey endpoint bucket localPath region).
Local Abbreviation rounds_of :=
  (downloadRounds env accessKey secretKey endpoint bucket localPath region).

Lemma downloadFiles_listing_failed w e :
  s3_ListObjects env c listing = Err e ->
  download w = (send (s3.ListObjectsReq c listing) w, Some e).
Proof. intros H. unfold downloadFiles, client.ListObjects. by rewrite H. Qed.

(** With a listing, [downloadFiles] is its loop over the listed objects
    followed by the deferred calls, and returns no error. *)
Lemma downloadFiles_rounds w out :
  s3_ListObjects env c listing = Ok out ->
  exists w' d rs,
    rounds_of w = (w', d, rs) /\
    downloadLoop env c bucket localPath (s3.Contents out)
      (send (s3.ListObjectsReq c listing) w, []) = (w', d, rs) /\
    download w = (run_deferred d w', None).
Proof.
  intros H. unfold downloadFiles, downloadRounds, client.ListObjects. rewrite H.
  destruct (downloadLoop _ _ _ _ _ _) as [[w' d] rs]. by exists w', d, rs.
Qed.

End DownloadFiles.

(** * The download phase as [main] calls it *)

Lemma downloadCall_rounds env config w out :
  s3_ListObjects env (sourceClient config) (listingInput config) = Ok out ->
  exists w' d rs,
    roundsCall env config w = (w', d, rs) /\
    downloadLoop env (sourceClient config) (Bucket (Source config))
      (LocalDownloadPath (Source config)) (s3.Contents out)
      (send (s3.ListObjectsReq (sourceClient config) (listingInput config)) w, [])
    = (w', d, rs) /\
    downloadCall env config w = (run_deferred d w', None).
Proof. apply downloadFiles_rounds. Qed.

Lemma downloadCall_requests env config w out :
  s3_ListObjects env (sourceClient config) (listingInput config) = Ok out ->
  requests (downloadCall env config w).1
  = requests w ++ s3.ListObjectsReq (sourceClient config) (listingInput config)
      :: concat (map (round_requests (sourceClient config) (Bucket (Source config)))
                     (roundsCall env config w).2).
Proof.
  intros H. destruct (downloadCall_rounds env config w out H) as (w' & d & rs & -> & Hloop & ->).
  simpl. destruct (run_deferred_fields d w') as (_ & _ & ->).
  rewrite (loop_requests _ _ _ _ _ _ _ _ _ _ Hloop). simpl. by rewrite <- app_assoc.
Qed.

Lemma lists_round_requests c bucket rs :
  lists (concat (map (round_requests c bucket) rs)) = [].
Proof.
  induction rs as [|[o oc] rs IH]; [done|]. simpl. unfold lists in *.
  rewrite omap_app, IH, app_nil_r. by destruct oc.
Qed.

Lemma get_keys_round_requests c bucket rs o oc :
  In (o, oc) rs -> oc <> MkdirFailed ->
  In (s3.Key o) (get_keys (concat (map (round_requests c bucket) rs))).
Proof.
  induction rs as [|r rs IH]; [done|]. intros [->|Hin] Hoc; simpl; unfold get_keys in *;
    rewrite omap_app; apply in_or_app.
  - left. destruct oc; try done; by left.
  - right. by apply IH.
Qed.

Lemma main_reaches_upload env config w w1 w2 :
  readConfig env "config.yaml" w = Ok config ->
  os.MkdirAll env (LocalDownloadPath (Source config)) w = (w1, None) ->
  downloadCall env config w1 = (w2, None) ->
  main env w = finish env config w2.
Proof. intros H1 H2 H3. unfold main. by rewrite H1, H2, H3. Qed.

(** C1 (amended). The download phase sends one listing request, without
    marker, and goes through the entries of the page it gets, each once and
    in order: against a bucket listed by pages of [maxKeys] it processes the
    first [maxKeys] objects, hence every object when the bucket fits in
    one page, and without duplicates when the bucket has none. *)
Theorem C1_first_page_only maxKeys objs cfg w :
  let env := sim.env maxKeys objs cfg in
  let keys := processed_keys (roundsCall env cfg w).2 in
  keys = map fst (firstn maxKeys objs) /\
  lists (requests (downloadCall env cfg w).1) = lists (requests w) ++ [ listingInput cfg ] /\
  ((length objs <= maxKeys)%nat -> keys = map fst objs) /\
  (NoDup (map fst objs) -> NoDup keys).
Proof.
  intros env keys.
  assert (s3_ListObjects env (sourceClient cfg) (listingInput cfg)
          = Ok {| s3.Contents := map sim.describe (firstn maxKeys objs);
                  s3.IsTruncated := Nat.ltb maxKeys (length objs);
                  s3.NextMarker := if Nat.ltb maxKeys (length objs)
                                   then option_map fst (last (firstn maxKeys objs))
                                   else None |}) as Hlist by reflexivity.
  assert (keys = map fst (firstn maxKeys objs)) as Hkeys.
  { subst keys. destruct (downloadCall_rounds env cfg w _ Hlist) as (w' & d & rs & -> & Hloop & _).
    apply loop_objects in Hloop. simpl in *. unfold processed_keys.
    rewrite <- (map_map fst s3.Key), Hloop, map_map. done. }
  split; [done|]. split; [|split].
  - rewrite (downloadCall_requests env cfg w _ Hlist). unfold lists at 1.
    rewrite omap_app. simpl. fold (lists (requests w)).
    change (omap _ (concat ?l)) with (lists (concat l)).
    by rewrite lists_round_requests.
  - intros Hle. by rewrite Hkeys, firstn_all2.
  - intros Hnd. rewrite Hkeys, <- firstn_map.
    eapply sublist_NoDup; [|apply sublist_take]. done.
Qed.

(** C1 as stated fails: a bucket of three objects listed by pages of two. *)
Lemma C1_counterexample :
  let objs := [ ("a.txt", bytes "1"); ("b.txt", bytes "2"); ("c.txt", bytes "3") ] in
  let cfg := sim.config "staging" in
  processed_keys (roundsCall (sim.env 2 objs cfg) cfg sim.world).2 <> map fst objs.
Proof. vm_compute. discriminate. Qed.

(** Where the files of the staging tree come from, and what the rounds that
    ended with the full write leave behind. *)
Lemma staging_after_download env config w out :
  s3_ListObjects env (sourceClient config) (listingInput config) = Ok out ->
  let rs := (roundsCall env config w).2 in
  let w' := (downloadCall env config w).1 in
  (forall p data,
     fs w' !! p = Some (File data) ->
     fs w !! p = Some (File data) \/
     exists o oc, In (o, oc) rs /\ In o (s3.Contents out) /\ wrote oc = true /\
                  p = stagingPath config (s3.Key o) /\ 0 < s3.Size o) /\
  (forall i o,
     rs !! i = Some (o, Downloaded) ->
     exists data,
       fs w' !! stagingPath config (s3.Key o) = Some (File data) /\
       forall body,
         s3_GetObject env (sourceClient config) (getInput config (s3.Key o)) = Ok body ->
         (forall j r, (i < j)%nat -> rs !! j = Some r -> wrote r.2 = true ->
                      stagingPath config (s3.Key r.1) <> stagingPath config (s3.Key o)) ->
         data = body).
Proof.
  intros H rs w'. subst rs w'.
  destruct (downloadCall_rounds env config w out H) as (w' & d & rs & -> & Hloop & ->).
  simpl. destruct (run_deferred_fields d w') as (-> & _ & _). split.
  - intros p data Hp.
    edestruct loop_files_origin as [?|(o & oc & Hin & Hw & -> & Hs)];
      [exact Hloop|exact Hp|by left|].
    right. exists o, oc. repeat split; try done.
    erewrite <- loop_objects by exact Hloop.
    by apply (in_map fst) in Hin.
  - intros i o Hi. eapply loop_files_downloaded; [exact Hloop|exact Hi].
Qed.

(** C2 (amended). After the download phase, every regular file that was not
    there before is the file of a listed object with a size above zero whose
    directory creation, fetch and file creation succeeded; and every object
    whose round ended with the full write has its file, which holds the
    fetched bytes unless a later object was written to the same path. *)
Theorem C2_staging_after_download env config w out :
  s3_ListObjects env (sourceClient config) (listingInput config) = Ok out ->
  let rs := (roundsCall env config w).2 in
  let w' := (downloadCall env config w).1 in
  (forall p data,
     fs w' !! p = Some (File data) ->
     fs w !! p = Some (File data) \/
     exists o oc, In (o, oc) rs /\ In o (s3.Contents out) /\ wrote oc = true /\
                  p = stagingPath config (s3.Key o) /\ 0 < s3.Size o) /\
  (forall i o,
     rs !! i = Some (o, Downloaded) ->
     exists data,
       fs w' !! stagingPath config (s3.Key o) = Some (File data) /\
       forall body,
         s3_GetObject env (sourceClient config) (getInput config (s3.Key o)) = Ok body ->
         (forall j r, (i < j)%nat -> rs !! j = Some r -> wrote r.2 = true ->
                      stagingPath config (s3.Key r.1) <> stagingPath config (s3.Key o)) ->
         data = body).
Proof. apply staging_after_download. Qed.

Lemma C2_staging_after_download_witness :
  let objs := [ ("a.txt", bytes "hello"); ("dir/b.txt", bytes ""); ("dir/c.txt", bytes "abc") ] in
  let cfg := sim.config "staging" in
  let env := sim.env 1000 objs cfg in
  fs (downloadCall env cfg sim.world).1 !! "staging/dir/c.txt" = Some (File (bytes "abc")) /\
  exists data, fs (downloadCall env cfg sim.world).1 !! "staging/a.txt" = Some (File data).
Proof.
  intros objs cfg env. split; [by vm_compute|].
  assert (s3_ListObjects env (sourceClient cfg) (listingInput cfg)
          = Ok {| s3.Contents := map sim.describe objs; s3.IsTruncated := false;
                  s3.NextMarker := None |}) as H by reflexivity.
  destruct (C2_staging_after_download env cfg sim.world _ H) as [_ Hd].
  destruct (Hd 0%nat (sim.describe ("a.txt", bytes "hello"))) as (data & Hdata & _);
    [by vm_compute|].
  by exists data.
Defined.

(** C2 as stated fails: the copy of the only object breaks after two bytes,
    and the staging tree holds a file although no object was written in
    full. *)
Lemma C2_counterexample :
  let cfg := sim.config "staging" in
  let env := with_copy_fault "staging/a.txt" 2 "unexpected EOF"
               (sim.env 1000 [ ("a.txt", bytes "hello") ] cfg) in
  let w' := (downloadCall env cfg sim.world).1 in
  let rs := (roundsCall env cfg sim.world).2 in
  ~ (forall p,
       os.below "staging" p = true -> os.is_file (fs w') p = true ->
       exists o, In (o, Downloaded) rs /\ p = stagingPath cfg (s3.Key o)).
Proof.
  intros cfg env w' rs H.
  destruct (H "staging/a.txt") as (o & Hin & _); [by vm_compute..|].
  vm_compute in Hin. destruct Hin as [Hin|[]]. discriminate.
Qed.

(** * The rounds of the loop, one by one *)

Section Rounds.
Context (env : Env) (c : s3.Client) (bucket localPath : string).

Local Abbreviation round := (downloadObject env c bucket localPath).
Local Abbreviation loop := (downloadLoop env c bucket localPath).
Local Abbreviation path_of := (fun o : s3.Object => toLocalPath localPath (s3.Key o)).
Local Abbreviation fetch_of :=
  (fun o : s3.Object => s3_GetObject env c {| s3.gi_Bucket := bucket; s3.gi_Key := s3.Key o |}).

(** The loop up to a round, the round, and the loop after it. *)
Lemma loop_split objs st w' d' rs i o oc :
  loop objs st = (w', d', rs) -> rs !! i = Some (o, oc) ->
  exists wi di wi' di' rs1 rs2,
    loop (firstn i objs) st = (wi, di, rs1) /\
    round o (wi, di) = (wi', di', oc) /\
    loop (firstn (S i) objs) st = (wi', di', rs1 ++ [ (o, oc) ]) /\
    loop (skipn (S i) objs) (wi', di') = (w', d', rs2) /\
    rs = rs1 ++ (o, oc) :: rs2 /\ length rs1 = i.
Proof.
  revert st w' d' rs i. induction objs as [|o1 objs IH]; intros [w d] w' d' rs i H Hi.
  - by inversion H; subst.
  - loop_step H w1 d1 oc1 Hround rs1 Hloop. destruct i as [|i]; simpl in Hi.
    + inversion Hi; subst. exists w, d, w1, d1, [], rs1.
      cbn [firstn skipn downloadLoop]. rewrite Hround. by simpl.
    + destruct (IH _ _ _ _ _ Hloop Hi) as (wi & di & wi' & di' & ra & rb & E1 & E2 & E3 & E4 & -> & <-).
      exists wi, di, wi', di', ((o1, oc1) :: ra), rb.
      cbn [firstn skipn downloadLoop]. rewrite Hround.
      cbn [firstn] in E3. rewrite E1, E3. by simpl.
Qed.

(** What is printed stays: the output at the start of a round begins the
    output at the end of the loop. *)
Lemma loop_stdout_prefix objs st w' d' rs i :
  loop objs st = (w', d', rs) ->
  exists l, stdout w' = stdout (loop (firstn i objs) st).1.1 ++ l.
Proof.
  revert st w' d' rs i. induction objs as [|o1 objs IH]; intros [w d] w' d' rs i H.
  - inversion H; subst. exists []. destruct i; simpl; by rewrite app_nil_r.
  - destruct i as [|i].
    + by apply loop_stdout_mono in H.
    + loop_step H w1 d1 oc1 Hround rs1 Hloop.
      destruct (IH _ _ _ _ i Hloop) as [l E]. exists l.
      cbn [firstn downloadLoop]. rewrite Hround.
      by destruct (downloadLoop env c bucket localPath (firstn i objs) (w1, d1)) as [[? ?] ?].
Qed.

(** The round that ends on an error branch: the call that failed, the line
    it prints, and what it leaves of the files. *)
Lemma round_failed_spec o w d w' d' oc :
  round o (w, d) = (w', d', oc) -> failed oc = true ->
  exists err,
    match oc with
    | MkdirFailed =>
        (os.MkdirAll env (filepath.Dir (path_of o)) w).2 = Some err /\
        w' = Println [ "Error creating subdirectories:"; err ] w
    | GetFailed =>
        fetch_of o = Err err /\
        stdout w' = stdout w ++ [ sprint [ "Error getting object:"; s3.Key o; err ] ] /\
        same_files (fs w) (fs w')
    | CreateFailed =>
        (exists wa,
           os.MkdirAll env (filepath.Dir (path_of o)) w = (wa, None) /\
           (os.Create env (path_of o)
              (send (s3.GetObjectReq c {| s3.gi_Bucket := bucket; s3.gi_Key := s3.Key o |}) wa)).2
           = Err err) /\
        stdout w' = stdout w ++ [ sprint [ "Error creating local file:"; path_of o; err ] ] /\
        same_files (fs w) (fs w')
    | CopyFailed =>
        (exists n body,
           copy_fault env (path_of o) = Some (n, err) /\ fetch_of o = Ok body /\
           fs w' !! path_of o = Some (File (firstn n body))) /\
        stdout w' = stdout w ++ [ sprint [ "Error copying object to local file:"; s3.Key o; err ] ]
    | NothingWritten | Downloaded => False
    end.
Proof.
  intros H Hf. pose proof (round_files_same env c bucket localPath o w d w' d' oc H) as Hsame.
  round_cases H; try done; exists e.
  - apply MkdirAll_err in Hmkdir as ->. by split.
  - unfold io.Copy in Hcopy.
    apply Create_ok in Hcreate as (Hname & Hfname & Hfs & _ & _ & Hout & _).
    rewrite Hfname in Hcopy.
    destruct (copy_fault env (toLocalPath localPath (s3.Key o))) as [[n e']|] eqn:Hfault;
      [|congruence].
    inversion Hcopy; subst. apply MkdirAll_ok in Hmkdir as (_ & _ & _ & _ & _ & Hout' & _).
    split; [|simpl in *; congruence].
    exists n, a. split; [done|]. split; [done|]. simpl.
    assert (filepath.Clean (toLocalPath localPath (s3.Key o)) = toLocalPath localPath (s3.Key o))
      as Hclean by (by apply Join_cleaned).
    unfold os.contents. rewrite Hfname, Hfs, Hclean, !lookup_insert_eq. done.
  - split; [exists w0; by rewrite Hcreate|].
    os_facts. split; [congruence|]. exact (Hsame eq_refl).
  - os_facts. split; [done|]. split; [congruence|]. exact (Hsame eq_refl).
Qed.

(** The round that ends on no error branch: no call failed, and the file
    is written in full when the size is above zero. *)
Lemma round_done_spec o w d w' d' oc :
  round o (w, d) = (w', d', oc) -> failed oc = false ->
  (os.MkdirAll env (filepath.Dir (path_of o)) w).2 = None /\
  exists body,
    fetch_of o = Ok body /\
    if s3.Size o >? 0 then
      oc = Downloaded /\ copy_fault env (path_of o) = None /\
      fs w' !! path_of o = Some (File body)
    else oc = NothingWritten /\ same_files (fs w) (fs w').
Proof.
  intros H Hf. pose proof (round_files_same env c bucket localPath o w d w' d' oc H) as Hsame.
  round_cases H; try done.
  - split; [done|]. exists a. split; [done|].
    destruct (Z.gtb_spec (s3.Size o) 0) as [_|?]; [|lia].
    apply Create_ok in Hcreate as (Hname & Hfname & Hfs & _).
    unfold io.Copy in Hcopy. rewrite Hfname in Hcopy.
    destruct (copy_fault env (toLocalPath localPath (s3.Key o))) as [[n e']|] eqn:Hfault;
      [congruence|].
    inversion Hcopy; subst. split; [done|]. split; [done|]. simpl.
    assert (filepath.Clean (toLocalPath localPath (s3.Key o)) = toLocalPath localPath (s3.Key o))
      as Hclean by (by apply Join_cleaned).
    unfold os.contents. rewrite Hfname, Hfs, Hclean, !lookup_insert_eq. done.
  - split; [done|]. exists a. split; [done|].
    destruct (Z.gtb_spec (s3.Size o) 0) as [?|_]; [lia|].
    split; [done|]. exact (Hsame eq_refl).
Qed.

End Rounds.

Lemma roundStart_loop env config w out i :
  s3_ListObjects env (sourceClient config) (listingInput config) = Ok out ->
  roundStart env config w i
  = (downloadLoop env (sourceClient config) (Bucket (Source config))
       (LocalDownloadPath (Source config)) (firstn i (s3.Contents out))
       (send (s3.ListObjectsReq (sourceClient config) (listingInput config)) w, [])).1.1.
Proof. intros H. unfold roundStart, client.ListObjects. by rewrite H. Qed.

(** C3 (amended). With a listing, [downloadFiles] returns no error whatever
    happens to the single objects, and [main] goes on with the upload; every
    listed object gets its round, in order, and what a round prints stays in
    the output.  A round that ends on an error branch has met the error of
    the call of that branch and prints it; a round that ends on no error
    branch has met no error, and the file of an object with a size above
    zero then holds the fetched bytes.  When the failing call is the
    directory creation, the fetch or the file creation, the round leaves
    the regular files as they were, and the key is skipped: no file is at
    its staging path afterwards, unless one was there before the phase or
    another listed object is written to that path.  When the failing call
    is the write, the key is not skipped: the file created for it stays,
    with the bytes written before the error, unless a later object is
    written to the same path.  When no object but the one at position [M]
    fails, every other object with a size above zero has its file in the
    staging tree (with the fetched bytes, unless a later object is written
    to the same path). *)
Theorem C3_best_effort_download env config w w1 out :
  readConfig env "config.yaml" w = Ok config ->
  os.MkdirAll env (LocalDownloadPath (Source config)) w = (w1, None) ->
  s3_ListObjects env (sourceClient config) (listingInput config) = Ok out ->
  let rs := (roundsCall env config w1).2 in
  let w2 := (downloadCall env config w1).1 in
  let before := roundStart env config w1 in
  let path := fun o : s3.Object => stagingPath config (s3.Key o) in
  let fetch := fun o : s3.Object =>
    s3_GetObject env (sourceClient config) (getInput config (s3.Key o)) in
  (downloadCall env config w1).2 = None /\
  main env w = finish env config w2 /\
  map fst rs = s3.Contents out /\
  (forall i, exists l, stdout w2 = stdout (before i) ++ l) /\
  (forall i o oc,
     rs !! i = Some (o, oc) -> failed oc = true ->
     exists err,
       match oc with
       | MkdirFailed =>
           (os.MkdirAll env (filepath.Dir (path o)) (before i)).2 = Some err /\
           before (S i) = Println [ "Error creating subdirectories:"; err ] (before i)
       | GetFailed =>
           fetch o = Err err /\
           stdout (before (S i))
           = stdout (before i) ++ [ sprint [ "Error getting object:"; s3.Key o; err ] ] /\
           same_files (fs (before i)) (fs (before (S i)))
       | CreateFailed =>
           (exists wa,
              os.MkdirAll env (filepath.Dir (path o)) (before i) = (wa, None) /\
              (os.Create env (path o)
                 (send (s3.GetObjectReq (sourceClient config) (getInput config (s3.Key o))) wa)).2
              = Err err) /\
           stdout (before (S i))
           = stdout (before i) ++ [ sprint [ "Error creating local file:"; path o; err ] ] /\
           same_files (fs (before i)) (fs (before (S i)))
       | CopyFailed =>
           (exists n body,
              copy_fault env (path o) = Some (n, err) /\ fetch o = Ok body /\
              fs (before (S i)) !! path o = Some (File (firstn n body))) /\
           stdout (before (S i))
           = stdout (before i)
               ++ [ sprint [ "Error copying object to local file:"; s3.Key o; err ] ]
       | NothingWritten | Downloaded => False
       end) /\
  (forall i o oc,
     rs !! i = Some (o, oc) -> failed oc = false ->
     (os.MkdirAll env (filepath.Dir (path o)) (before i)).2 = None /\
     exists body,
       fetch o = Ok body /\
       if s3.Size o >? 0 then
         oc = Downloaded /\ copy_fault env (path o) = None /\
         fs (before (S i)) !! path o = Some (File body)
       else oc = NothingWritten /\ same_files (fs (before i)) (fs (before (S i)))) /\
  (forall i o oc,
     rs !! i = Some (o, oc) -> failed oc = true -> oc <> CopyFailed ->
     os.is_file (fs w1) (path o) = false ->
     (forall j r, j <> i -> rs !! j = Some r -> wrote r.2 = true -> path r.1 <> path o) ->
     os.is_file (fs w2) (path o) = false) /\
  (forall i o,
     rs !! i = Some (o, CopyFailed) ->
     exists n err body,
       copy_fault env (path o) = Some (n, err) /\ fetch o = Ok body /\
       ((forall j r, (i < j)%nat -> rs !! j = Some r -> wrote r.2 = true ->
                     path r.1 <> path o) ->
        fs w2 !! path o = Some (File (firstn n body)))) /\
  (forall M : nat,
     (forall i r, i <> M -> rs !! i = Some r -> failed r.2 = false) ->
     forall i o oc,
       i <> M -> rs !! i = Some (o, oc) -> 0 < s3.Size o ->
       exists data,
         fs w2 !! path o = Some (File data) /\
         forall body,
           fetch o = Ok body ->
           (forall j r, (i < j)%nat -> rs !! j = Some r -> wrote r.2 = true ->
                        path r.1 <> path o) ->
           data = body).
Proof.
  intros Hcfg Hmk Hlist. cbv beta zeta.
  pose proof (staging_after_download env config w1 out Hlist) as [_ Hdown].
  cbv beta zeta in Hdown. unfold stagingPath, getInput in *.
  destruct (downloadCall_rounds env config w1 out Hlist) as (w' & d & rs & Hrs & Hloop & Hcall).
  rewrite Hrs, Hcall in *. simpl in Hdown |- *.
  destruct (run_deferred_fields d w') as (Hfs & Hout & _).
  split; [done|]. split; [by apply (main_reaches_upload env config w w1)|].
  split; [by eapply loop_objects|].
  split; [|split; [|split; [|split; [|split]]]].
  - intros i. rewrite (roundStart_loop env config w1 out i Hlist), Hout.
    eapply loop_stdout_prefix, Hloop.
  - intros i o oc Hi Hf.
    destruct (loop_split _ _ _ _ _ _ _ _ _ i o oc Hloop Hi)
      as (wi & di & wi' & di' & r1 & r2 & E1 & E2 & E3 & _).
    rewrite !(roundStart_loop env config w1 out _ Hlist), E1, E3.
    exact (round_failed_spec _ _ _ _ _ _ _ _ _ _ E2 Hf).
  - intros i o oc Hi Hf.
    destruct (loop_split _ _ _ _ _ _ _ _ _ i o oc Hloop Hi)
      as (wi & di & wi' & di' & r1 & r2 & E1 & E2 & E3 & _).
    rewrite !(roundStart_loop env config w1 out _ Hlist), E1, E3.
    exact (round_done_spec _ _ _ _ _ _ _ _ _ _ E2 Hf).
  - intros i o oc Hi Hf Hnc Hno Hother. unfold os.is_file in *.
    destruct (fs (run_deferred d w') !! _) as [[data|]|] eqn:E; try done.
    exfalso. rewrite Hfs in E.
    edestruct loop_files_origin as [H0|(o' & oc' & Hin & Hw & Hp & _)]; [exact Hloop|exact E| |].
    + simpl in H0. by rewrite H0 in Hno.
    + apply list_elem_of_In, list_elem_of_lookup in Hin as [j Hj].
      apply (Hother j (o', oc')); [|done|done|by rewrite Hp].
      intros ->. rewrite Hi in Hj. inversion Hj; subst. by destruct oc'.
  - intros i o Hi.
    destruct (loop_split _ _ _ _ _ _ _ _ _ i o CopyFailed Hloop Hi)
      as (wi & di & wi' & di' & r1 & r2 & _ & E2 & _ & E4 & -> & <-).
    destruct (round_failed_spec _ _ _ _ _ _ _ _ _ _ E2 eq_refl)
      as (err & (n & body & Hfault & Hget & Hat) & _).
    exists n, err, body. split; [done|]. split; [done|]. intros Hlater.
    destruct (loop_file_persist _ _ _ _ _ _ _ _ _ _ _ _ E4 Hat) as (x' & Hp' & Hx').
    rewrite Hfs, Hp'. f_equal. f_equal. apply Hx'.
    intros r [k Hk]%list_elem_of_In%list_elem_of_lookup Hw.
    apply (Hlater (S (length r1 + k)) r); [lia| |done].
    rewrite lookup_app_r by lia.
    by replace (S (length r1 + k) - length r1)%nat with (S k) by lia.
  - intros M HM i o oc Hi Hr Hsize.
    assert (oc = Downloaded) as ->.
    { pose proof (HM i _ Hi Hr) as Hf. simpl in Hf.
      edestruct loop_outcome_size as [_ Hnw]; [exact Hloop| |].
      { apply list_elem_of_In, list_elem_of_lookup. eauto. }
      destruct oc; try done. specialize (Hnw eq_refl). lia. }
    by apply Hdown.
Qed.

Lemma C3_best_effort_download_witness :
  let objs := [ ("a.txt", bytes "hello"); ("b.txt", bytes "xy"); ("dir/c.txt", bytes "abc") ] in
  let cfg := sim.config "staging" in
  let env := with_get_fault "b.txt" "RequestTimeout" (sim.env 1000 objs cfg) in
  let w1 := (os.MkdirAll env "staging" sim.world).1 in
  let w2 := (downloadCall env cfg w1).1 in
  (downloadCall env cfg w1).2 = None /\
  processed_keys (roundsCall env cfg w1).2 = [ "a.txt"; "b.txt"; "dir/c.txt" ] /\
  fs w2 !! "staging/a.txt" = Some (File (bytes "hello")) /\
  fs w2 !! "staging/dir/c.txt" = Some (File (bytes "abc")) /\
  os.is_file (fs w2) "staging/b.txt" = false /\
  In "Error getting object: b.txt RequestTimeout" (stdout w2) /\
  (main env sim.world).2 = 0.
Proof.
  intros objs cfg env w1 w2.
  assert (s3_ListObjects env (sourceClient cfg) (listingInput cfg)
          = Ok {| s3.Contents := map sim.describe objs; s3.IsTruncated := false;
                  s3.NextMarker := None |}) as H by reflexivity.
  pose proof (C3_best_effort_download env cfg sim.world w1 _ eq_refl eq_refl H) as HC3.
  cbv beta zeta in HC3. fold w2 in HC3.
  destruct HC3 as (Hret & Hmain & Hobjs & Hprinted & Hfailed & _ & Hskipped & _ & Hothers).
  set (a := sim.describe ("a.txt", bytes "hello")).
  set (b := sim.describe ("b.txt", bytes "xy")).
  set (c := sim.describe ("dir/c.txt", bytes "abc")).
  assert ((roundsCall env cfg w1).2 = [ (a, Downloaded); (b, GetFailed); (c, Downloaded) ])
    as Hrs by (vm_compute; reflexivity).
  rewrite Hrs in *.
  assert (forall i r, i <> 1%nat ->
                      [ (a, Downloaded); (b, GetFailed); (c, Downloaded) ] !! i = Some r ->
                      failed r.2 = false) as Hone.
  { intros [|[|[|i]]] r Hi Hr; inversion Hr; [reflexivity|destruct Hi; reflexivity|reflexivity]. }
  split; [exact Hret|]. split; [|split; [|split; [|split; [|split]]]].
  - unfold processed_keys. rewrite <- (map_map fst s3.Key), Hobjs. reflexivity.
  - destruct (Hothers 1%nat Hone 0%nat a Downloaded) as (data & Hat & Hbody);
      [lia|reflexivity|vm_compute; reflexivity|].
    rewrite (Hbody (bytes "hello")) in Hat; [exact Hat|reflexivity|].
    intros [|[|[|j]]] r Hj Hr Hw; inversion Hr; subst r;
      [lia|discriminate Hw|vm_compute; discriminate].
  - destruct (Hothers 1%nat Hone 2%nat c Downloaded) as (data & Hat & Hbody);
      [lia|reflexivity|vm_compute; reflexivity|].
    rewrite (Hbody (bytes "abc")) in Hat; [exact Hat|reflexivity|].
    intros [|[|[|j]]] r Hj Hr Hw; inversion Hr; lia.
  - apply (Hskipped 1%nat b GetFailed);
      [reflexivity|reflexivity|discriminate|vm_compute; reflexivity|].
    intros [|[|[|j]]] r Hj Hr Hw; inversion Hr; subst r;
      [vm_compute; discriminate|destruct Hj; reflexivity|vm_compute; discriminate].
  - destruct (Hfailed 1%nat b GetFailed) as (err & Hget & Hline & _);
      [reflexivity|reflexivity|].
    vm_compute in Hget. inversion Hget; subst err.
    destruct (Hprinted 2%nat) as [l ->]. rewrite Hline.
    apply in_or_app. left. apply in_or_app. right. left. reflexivity.
  - rewrite Hmain. vm_compute. reflexivity.
Defined.

(** C3 as stated fails: the write of [b.txt] breaks after one byte.  The
    key is not skipped: its file stays in the staging tree with that byte,
    the upload sends it to the destination, and the run ends with exit
    code 0. *)
Lemma C3_counterexample :
  let objs := [ ("a.txt", bytes "hello"); ("b.txt", bytes "xy"); ("dir/c.txt", bytes "abc") ] in
  let cfg := sim.config "staging" in
  let env := with_copy_fault "staging/b.txt" 1 "no space left on device"
               (sim.env 1000 objs cfg) in
  let w2 := (downloadCall env cfg (os.MkdirAll env "staging" sim.world).1).1 in
  fs w2 !! "staging/b.txt" = Some (File (bytes "x")) /\
  map (fun i => (s3.pi_Key i, s3.pi_Body i)) (puts (requests (main env sim.world).1))
  = [ ("a.txt", bytes "hello"); ("b.txt", bytes "x"); ("dir/c.txt", bytes "abc") ] /\
  (main env sim.world).2 = 0 /\
  ~ (forall o,
       In o (map sim.describe objs) ->
       copy_fault env (stagingPath cfg (s3.Key o)) <> None ->
       os.is_file (fs w2) (stagingPath cfg (s3.Key o)) = false).
Proof.
  intros objs cfg env w2.
  split; [by vm_compute|]. split; [by vm_compute|]. split; [by vm_compute|].
  intros Hskip.
  pose proof (Hskip (sim.describe ("b.txt", bytes "xy"))) as Hb.
  assert (In (sim.describe ("b.txt", bytes "xy")) (map sim.describe objs)) as Hin
    by (right; left; reflexivity).
  assert (copy_fault env (stagingPath cfg (s3.Key (sim.describe ("b.txt", bytes "xy")))) <> None)
    as Hfault by (vm_compute; discriminate).
  specialize (Hb Hin Hfault). vm_compute in Hb. discriminate Hb.
Qed.

(** C8. The handles opened by the download loop are closed by deferred
    calls, which run when [downloadFiles] returns: with two objects to
    write, both handles are open when the loop ends, and none is left once
    the function has returned. *)
Theorem C8_handles_pile_up :
  let objs := [ ("a.txt", bytes "hello"); ("b.txt", bytes "abc") ] in
  let cfg := sim.config "staging" in
  let env := sim.env 1000 objs cfg in
  map fname (open_files (roundsCall env cfg sim.world).1.1) = [ "staging/b.txt"; "staging/a.txt" ] /\
  (roundsCall env cfg sim.world).1.2 = open_files (roundsCall env cfg sim.world).1.1 /\
  open_files (downloadCall env cfg sim.world).1 = [].
Proof. by vm_compute. Qed.

(** C9 (amended). The downloader sends one get-object request for every
    listed object whose directory creation succeeded, whatever its size:
    the size check comes after the fetch and guards the file creation and
    the write only.  A fetch error is printed and the loop goes on. *)
Theorem C9_fetch_before_size_check env config w out :
  s3_ListObjects env (sourceClient config) (listingInput config) = Ok out ->
  let rs := (roundsCall env config w).2 in
  let w' := (downloadCall env config w).1 in
  map fst rs = s3.Contents out /\
  requests w' = requests w ++ s3.ListObjectsReq (sourceClient config) (listingInput config)
                  :: concat (map (round_requests (sourceClient config) (Bucket (Source config))) rs) /\
  (forall o oc, In (o, oc) rs -> oc <> MkdirFailed -> In (s3.Key o) (get_keys (requests w'))) /\
  (forall o oc, In (o, oc) rs -> s3.Size o <= 0 ->
                oc = MkdirFailed \/ oc = GetFailed \/ oc = NothingWritten) /\
  (forall o, In (o, GetFailed) rs ->
             exists err,
               s3_GetObject env (sourceClient config) (getInput config (s3.Key o)) = Err err /\
               In (sprint [ "Error getting object:"; s3.Key o; err ]) (stdout w')) /\
  (downloadCall env config w).2 = None.
Proof.
  intros Hlist rs w'. pose proof (downloadCall_requests env config w out Hlist) as Hreq.
  fold rs w' in Hreq. subst rs w'.
  destruct (downloadCall_rounds env config w out Hlist) as (w' & d & rs & Hrs & Hloop & Hcall).
  rewrite Hrs, Hcall in *. simpl in *.
  destruct (run_deferred_fields d w') as (_ & Hout & _).
  split; [by eapply loop_objects|]. split; [done|]. split; [|split; [|split; [|done]]].
  - intros o oc Hin Hoc. rewrite Hreq. unfold get_keys. rewrite omap_app.
    apply in_or_app. right. simpl. by eapply get_keys_round_requests.
  - intros o oc Hin. by eapply loop_outcome_size.
  - intros o Hin. rewrite Hout. by eapply loop_get_failed.
Qed.

Lemma C9_fetch_before_size_check_witness :
  let objs := [ ("a.txt", bytes "hello"); ("dir/b.txt", bytes "") ] in
  let cfg := sim.config "staging" in
  let env := sim.env 1000 objs cfg in
  In "dir/b.txt" (get_keys (requests (downloadCall env cfg sim.world).1)).
Proof.
  intros objs cfg env.
  assert (s3_ListObjects env (sourceClient cfg) (listingInput cfg)
          = Ok {| s3.Contents := map sim.describe objs; s3.IsTruncated := false;
                  s3.NextMarker := None |}) as H by reflexivity.
  destruct (C9_fetch_before_size_check env cfg sim.world _ H) as (_ & _ & Hget & _).
  apply (Hget (sim.describe ("dir/b.txt", bytes "")) NothingWritten); [|done].
  vm_compute. right. by left.
Defined.

(** C9 as stated fails: the key [a/b] is listed after the key [a]; the file
    of [a] is in the way of the directory [a], and the round of [a/b] ends
    before its fetch. *)
Lemma C9_counterexample :
  let objs := [ ("a", bytes "x"); ("a/b", bytes "") ] in
  let cfg := sim.config "staging" in
  let env := sim.env 1000 objs cfg in
  let w' := (downloadCall env cfg sim.world).1 in
  ~ (forall o, In o (map sim.describe objs) -> In (s3.Key o) (get_keys (requests w'))).
Proof.
  intros objs cfg env w' H.
  specialize (H (sim.describe ("a/b", bytes ""))). vm_compute in H.
  destruct H as [H|[]]; [auto|]. discriminate.
Qed.

(** * The upload phase *)

Lemma Open_err env name w w' e : os.Open env name w = (w', Err e) -> w' = w.
Proof.
  unfold os.Open. destruct (String.eqb name ""); [congruence|].
  destruct (os_fault env OpOpen name); [congruence|].
  destruct (fs w !! filepath.Clean name); congruence.
Qed.

Lemma Open_ok env name w w' f :
  os.Open env name w = (w', Ok f) ->
  fname f = name /\ os_fault env OpOpen name = None /\
  fs w' = fs w /\ open_files w' = f :: open_files w /\
  stdout w' = stdout w /\ requests w' = requests w.
Proof.
  unfold os.Open. destruct (String.eqb name ""); [congruence|].
  destruct (os_fault env OpOpen name); [congruence|].
  destruct (fs w !! filepath.Clean name); [|congruence]. by intros [= <- <-].
Qed.

(** Splits a hypothesis on a call of the walk function of [uploadFiles] into
    the ways the call can end. *)
Ltac upload_cases H :=
  unfold uploadFile, client.PutObject in H;
  repeat match type of H with
    | context [match ?err with Some _ => _ | None => _ end] =>
        is_var err; destruct err
    | context [os.IsDir ?i] =>
        let E := fresh "Hdir" in destruct (os.IsDir i) eqn:E
    | context [os.Open ?e ?p ?w] =>
        let E := fresh "Hopen" in destruct (os.Open e p w) as [? [?|?]] eqn:E
    | context [Z.gtb ?x 0] =>
        let E := fresh "Hsize" in destruct (Z.gtb_spec x 0) as [E|E]
    | context [s3_PutObject ?e ?c ?i] =>
        let E := fresh "Hput" in destruct (s3_PutObject e c i) eqn:E
    end;
  inversion H; subst; clear H;
  repeat match goal with
    | E : os.Open _ _ _ = (_, Err _) |- _ => apply Open_err in E; subst
    | E : os.Open _ _ _ = (_, Ok _) |- _ =>
        apply Open_ok in E;
        destruct E as (?Hfname & ?Hnofault & ?Hfs & ?Hopen & ?Hout & ?Hreq)
    end;
  simpl in *.

Section Upload.
Context (env : Env) (c : s3.Client) (bucket directory : string).

Local Abbreviation fn := (uploadFile env c bucket directory).

(** One call of the walk function leaves the tree and the output as they
    are and sends at most one request: the put of a regular file with a size
    above zero, with the bytes stored under its path. *)
Lemma uploadFile_spec path info err w w' r :
  fn path info err w = (w', r) ->
  fs w' = fs w /\ stdout w' = stdout w /\
  (requests w' = requests w \/
   (err = None /\ os.IsDir info = false /\ 0 < os.Size info /\
    requests w' = requests w ++
      [ s3.PutObjectReq c {| s3.pi_Bucket := bucket;
                             s3.pi_Key := toObjectKey directory path;
                             s3.pi_Body := stored (fs w) path |} ])).
Proof.
  intros H. upload_cases H; try (by repeat split; auto).
  all: unfold os.contents, stored; simpl; rewrite Hfname, Hfs.
  all: repeat split; try done; right; repeat split; try done.
  all: by rewrite Hreq.
Qed.

Lemma walk_visits_app pre rest w :
  walk.walk_visits fn (pre ++ rest) w =
  match walk.walk_visits fn pre w with
  | (w1, Some e) => (w1, Some e)
  | (w1, None) => walk.walk_visits fn rest w1
  end.
Proof.
  revert w. induction pre as [|v pre IH]; intros w; simpl; [done|].
  destruct (fn _ _ _ w) as [w1 [e|]]; [done|]. apply IH.
Qed.

(** The requests of a walk are puts for regular files among the visits, at
    most one for each. *)
Lemma walk_visits_spec vs w w' r :
  walk.walk_visits fn vs w = (w', r) ->
  fs w' = fs w /\ stdout w' = stdout w /\
  exists sent : list walk.Visit,
    sublist sent (List.filter regular vs) /\
    Forall (fun v => 0 < os.Size (walk.v_info v)) sent /\
    requests w' = requests w ++
      map (fun v => s3.PutObjectReq c
                      {| s3.pi_Bucket := bucket;
                         s3.pi_Key := toObjectKey directory (walk.v_path v);
                         s3.pi_Body := stored (fs w) (walk.v_path v) |}) sent.
Proof.
  revert w w' r. induction vs as [|v vs IH]; intros w w' r H; simpl in H.
  - inversion H; subst. repeat split. exists []. by rewrite app_nil_r.
  - destruct (fn _ _ _ w) as [w1 r1] eqn:Hv.
    destruct (uploadFile_spec _ _ _ _ _ _ Hv) as (Hfs & Hout & Hreq).
    destruct r1 as [e|].
    + inversion H; subst. repeat split; try done.
      destruct Hreq as [Hreq|(Herr & Hdir & Hs & Hreq)].
      * exists []. rewrite app_nil_r. repeat split; [apply sublist_nil_l|done|done].
      * exists [ v ]. repeat split; [|by repeat constructor|done].
        simpl. unfold regular at 1. rewrite Herr, Hdir. simpl.
        apply sublist_skip, sublist_nil_l.
    + destruct (IH _ _ _ H) as (Hfs2 & Hout2 & sent & Hsub & Hsz & Hreq2).
      rewrite Hfs2, Hout2. repeat split; try done.
      destruct Hreq as [Hreq|(Herr & Hdir & Hs & Hreq)].
      * exists sent. rewrite Hreq2, Hreq, Hfs. repeat split; [|done].
        simpl. destruct (regular v); [by apply sublist_cons|done].
      * exists (v :: sent). rewrite Hreq2, Hreq, Hfs, <- app_assoc.
        repeat split; [|by constructor].
        simpl. unfold regular at 1. rewrite Herr, Hdir. simpl. by apply sublist_skip.
Qed.

End Upload.

Lemma uploadCall_unfold env config w :
  uploadCall env config w = walk.walk_visits (uploadFn env config) (visitsCall env config w) w.
Proof. reflexivity. Qed.

Lemma uploadCall_spec env config w w' r :
  uploadCall env config w = (w', r) ->
  fs w' = fs w /\ stdout w' = stdout w /\
  exists sent : list walk.Visit,
    sublist sent (List.filter regular (visitsCall env config w)) /\
    Forall (fun v => 0 < os.Size (walk.v_info v)) sent /\
    requests w' = requests w ++ map (putRequest config (fs w)) sent.
Proof. rewrite uploadCall_unfold. apply walk_visits_spec. Qed.

Lemma puts_app l1 l2 : puts (l1 ++ l2) = puts l1 ++ puts l2.
Proof. apply omap_app. Qed.

Lemma puts_putRequests config m sent :
  length (puts (map (putRequest config m) sent)) = length sent.
Proof. induction sent as [|v sent IH]; simpl; [done|]. by rewrite IH. Qed.

(** C4. When the upload of a visited file fails, the walk stops there:
    [uploadFiles] returns the error, the rest of the visits plays no part,
    the requests sent are puts of files visited before and the failing put
    (at most [J] puts when the file is the [J]-th regular file visited), and
    [main] prints the error and exits with code 1 without removing anything. *)
Theorem C4_upload_abort env config w pre v post w1 w1' f e :
  visitsCall env config w = pre ++ v :: post ->
  walk.walk_visits (uploadFn env config) pre w = (w1, None) ->
  regular v = true -> 0 < os.Size (walk.v_info v) ->
  os.Open env (walk.v_path v) w1 = (w1', Ok f) ->
  s3_PutObject env (destClient config)
    {| s3.pi_Bucket := Bucket (Destination config);
       s3.pi_Key := uploadKey config (walk.v_path v);
       s3.pi_Body := stored (fs w) (walk.v_path v) |} = Some e ->
  let J := S (length (List.filter regular pre)) in
  exists w2 sent,
    uploadCall env config w = (w2, Some e) /\
    walk.walk_visits (uploadFn env config) (pre ++ [ v ]) w = (w2, Some e) /\
    sublist sent (List.filter regular pre) /\
    requests w2 = requests w ++ map (putRequest config (fs w)) sent
                    ++ [ putRequest config (fs w) v ] /\
    (length (puts (requests w2)) <= length (puts (requests w)) + J)%nat /\
    fs w2 = fs w /\
    finish env config w = (Println [ "Error uploading files:"; e ] w2, 1).
Proof.
  intros Hvisits Hpre Hreg Hsize Hopen Hput J.
  destruct (walk_visits_spec _ _ _ _ _ _ _ _ Hpre) as (Hfs1 & Hout1 & sent & Hsub & _ & Hreq1).
  unfold regular in Hreg. destruct (walk.v_err v) eqn:Herr; [done|].
  apply negb_true_iff in Hreg.
  assert (uploadFn env config (walk.v_path v) (walk.v_info v) (walk.v_err v) w1
          = (os.Close f (send (putRequest config (fs w) v) w1'), Some e)) as Hv.
  { unfold uploadFn, uploadFile, client.PutObject. rewrite Herr, Hreg, Hopen.
    destruct (Z.gtb_spec (os.Size (walk.v_info v)) 0) as [_|]; [|lia].
    apply Open_ok in Hopen as (Hfname & _ & Hfs & _).
    unfold os.contents. rewrite Hfname, Hfs, Hfs1. fold (stored (fs w) (walk.v_path v)).
    fold (uploadKey config (walk.v_path v)). by rewrite Hput. }
  set (w2 := os.Close f (send (putRequest config (fs w) v) w1')) in *.
  assert (walk.walk_visits (uploadFn env config) (v :: post) w1 = (w2, Some e)) as Hrest
    by (simpl; by rewrite Hv).
  assert (uploadCall env config w = (w2, Some e)) as Hcall.
  { rewrite uploadCall_unfold, Hvisits. unfold uploadFn in *.
    by rewrite walk_visits_app, Hpre. }
  assert (requests w2 = requests w ++ map (putRequest config (fs w)) sent
                          ++ [ putRequest config (fs w) v ]) as Hreq.
  { subst w2. simpl. apply Open_ok in Hopen as (_ & _ & _ & _ & _ & ->).
    unfold putRequest, uploadKey in *. by rewrite Hreq1, <- app_assoc. }
  exists w2, sent. repeat split; try done.
  - unfold uploadFn in *. rewrite walk_visits_app, Hpre. simpl. by rewrite Hv.
  - rewrite Hreq, !puts_app, !length_app, puts_putRequests. simpl.
    apply sublist_length in Hsub. subst J. lia.
  - subst w2. simpl. apply Open_ok in Hopen as (_ & _ & -> & _). done.
  - unfold finish. by rewrite Hcall.
Qed.

(** C10. The walk function opens a regular file before it looks at its
    size: when the open of a file of size zero fails, [uploadFiles] returns
    that error, the walk stops and [main] exits with code 1; when the open
    succeeds, the file is closed again and nothing is sent. *)
Theorem C10_open_before_size_check env config w pre v post w1 e :
  visitsCall env config w = pre ++ v :: post ->
  walk.walk_visits (uploadFn env config) pre w = (w1, None) ->
  regular v = true -> os.Size (walk.v_info v) = 0 ->
  os.Open env (walk.v_path v) w1 = (w1, Err e) ->
  uploadCall env config w = (w1, Some e) /\
  walk.walk_visits (uploadFn env config) (pre ++ [ v ]) w = (w1, Some e) /\
  (exists sent, sublist sent (List.filter regular pre) /\
                requests w1 = requests w ++ map (putRequest config (fs w)) sent) /\
  finish env config w = (Println [ "Error uploading files:"; e ] w1, 1) /\
  (forall env' w0 w0' f,
     os.Open env' (walk.v_path v) w0 = (w0', Ok f) ->
     uploadFn env' config (walk.v_path v) (walk.v_info v) (walk.v_err v) w0
     = (os.Close f w0', None) /\
     requests (os.Close f w0') = requests w0).
Proof.
  intros Hvisits Hpre Hreg Hsize Hopen.
  destruct (walk_visits_spec _ _ _ _ _ _ _ _ Hpre) as (Hfs1 & Hout1 & sent & Hsub & _ & Hreq1).
  unfold regular in Hreg. destruct (walk.v_err v) eqn:Herr; [done|].
  apply negb_true_iff in Hreg.
  assert (uploadFn env config (walk.v_path v) (walk.v_info v) (walk.v_err v) w1
          = (w1, Some e)) as Hv.
  { unfold uploadFn, uploadFile. by rewrite Herr, Hreg, Hopen. }
  assert (uploadCall env config w = (w1, Some e)) as Hcall.
  { rewrite uploadCall_unfold, Hvisits. unfold uploadFn in *.
    rewrite walk_visits_app, Hpre. simpl. by rewrite Hv. }
  split; [done|]. split; [|split; [|split]].
  - unfold uploadFn in *. rewrite walk_visits_app, Hpre. simpl. by rewrite Hv.
  - exists sent. split; [done|]. unfold putRequest, uploadKey. by rewrite Hreq1.
  - unfold finish. by rewrite Hcall.
  - intros env' w0 w0' f Hopen'. unfold uploadFn, uploadFile.
    rewrite Hreg, Hopen', Hsize. simpl.
    by apply Open_ok in Hopen' as (_ & _ & _ & _ & _ & ->).
Qed.

(** * What [Walk] visits *)

Lemma insert_entry_In x y l : In x (walk.insert_entry y l) <-> x = y \/ In x l.
Proof.
  induction l as [|z l IH]; simpl; [intuition|].
  destruct (walk.names_le y.1 z.1); simpl; [intuition|]. rewrite IH. intuition.
Qed.

Lemma sort_entries_In x l : In x (walk.sort_entries l) <-> In x l.
Proof.
  induction l as [|y l IH]; simpl; [done|].
  rewrite insert_entry_In, IH. intuition.
Qed.

Lemma entries_below_In r m e :
  In e (walk.entries_below r m) ->
  m !! e.2.1 = Some e.2.2 /\ filepath.Clean e.2.1 = e.2.1 /\ os.below r e.2.1 = true.
Proof.
  unfold walk.entries_below. rewrite sort_entries_In.
  intros ([k n] & Hin%elem_of_map_to_list & Hentry)%list_elem_of_In%list_elem_of_omap.
  unfold walk.entry_below in Hentry. simpl in Hentry.
  destruct (String.eqb_spec (filepath.Clean k) k) as [Hk|]; [|done].
  destruct (os.names_below r k) as [ns|] eqn:Hns; [|done].
  inversion Hentry; subst. simpl. unfold os.below. by rewrite Hns.
Qed.

(** A regular file among the visits of [Walk] is a file of the tree, with
    the size of its contents: the root itself, or an entry below the root
    under its cleaned name. *)
Lemma visits_regular env root w v :
  In v (walk.visits env root w) -> regular v = true ->
  exists data,
    walk.v_info v = os.info_of (File data) /\
    fs w !! filepath.Clean (walk.v_path v) = Some (File data) /\
    (walk.v_path v = root \/
     (filepath.Clean (walk.v_path v) = walk.v_path v /\
      os.below (filepath.Clean root) (walk.v_path v) = true)).
Proof.
  unfold walk.visits, os.Lstat, regular.
  destruct (String.eqb root ""); [by intros [<-|[]]|].
  destruct (os_fault env OpLstat root); [by intros [<-|[]]|].
  destruct (fs w !! filepath.Clean root) as [n|] eqn:Hroot; [|by intros [<-|[]]].
  destruct n as [data|]; simpl.
  { intros [<-|[]] _. exists data. auto. }
  destruct (os_fault env OpReadDir root); [by intros [<-|[]]|].
  intros [<-|Hin]; [done|].
  apply in_map_iff in Hin as (e & <- & He%filter_In).
  destruct He as [(Hm & Hclean & Hbelow)%entries_below_In _].
  unfold walk.visit_of. destruct (os_fault env OpLstat e.2.1); [done|].
  destruct e.2.2 as [data|] eqn:Hn; simpl.
  - intros _. exists data. rewrite Hclean, Hm. auto.
  - by destruct (os_fault env OpReadDir e.2.1).
Qed.

Lemma RemoveAll_ok env path w w' :
  path <> "" -> os.RemoveAll env path w = (w', None) ->
  fs w' !! filepath.Clean path = None /\
  (forall k, os.below (filepath.Clean path) k = true -> fs w' !! k = None) /\
  (forall k, k <> filepath.Clean path -> os.below (filepath.Clean path) k = false ->
             fs w' !! k = fs w !! k) /\
  stdout w' = stdout w /\ requests w' = requests w.
Proof.
  intros Hne. unfold os.RemoveAll. destruct (String.eqb_spec path ""); [done|].
  destruct (os.endsWithDot path); [done|].
  destruct (os_fault env OpRemoveAll path); [done|]. intros [= <-]. simpl.
  repeat split.
  - apply map_lookup_filter_None. right. intros x _. simpl. by rewrite String.eqb_refl.
  - intros k Hk. apply map_lookup_filter_None. right. intros x _. simpl.
    rewrite Hk. by rewrite orb_true_r.
  - intros k Hk Hb. destruct (fs w !! k) as [x|] eqn:E.
    + apply map_lookup_filter_Some. split; [done|]. simpl. rewrite Hb.
      by apply String.eqb_neq in Hk as ->.
    + apply map_lookup_filter_None. by left.
Qed.

Lemma RemoveAll_fields env path w w' r :
  os.RemoveAll env path w = (w', r) -> stdout w' = stdout w /\ requests w' = requests w.
Proof.
  unfold os.RemoveAll. destruct (String.eqb path ""); [by intros [= <- <-]|].
  destruct (os.endsWithDot path); [by intros [= <- <-]|].
  destruct (os_fault env OpRemoveAll path); by intros [= <- <-].
Qed.

(** C7. When the configuration is read, the staging directory created, and
    download and upload return no error: if the removal succeeds, [main]
    prints the closing message last and exits with code 0, and neither the
    staging directory nor anything below it exists any more; if the removal
    fails, [main] prints the error and exits with code 1. *)
Theorem C7_cleanup_and_exit env config w w1 w2 w3 :
  readConfig env "config.yaml" w = Ok config ->
  os.MkdirAll env (LocalDownloadPath (Source config)) w = (w1, None) ->
  downloadCall env config w1 = (w2, None) ->
  uploadCall env config w2 = (w3, None) ->
  let staging := filepath.Clean (LocalDownloadPath (Source config)) in
  (forall w4,
     os.RemoveAll env (LocalDownloadPath (Source config)) w3 = (w4, None) ->
     (main env w).2 = 0 /\
     fs (main env w).1 !! staging = None /\
     (forall k, os.below staging k = true -> fs (main env w).1 !! k = None) /\
     stdout (main env w).1
     = stdout w4 ++ [ "Download and upload complete. Deleted local files and directory." ]) /\
  (forall w4 e,
     os.RemoveAll env (LocalDownloadPath (Source config)) w3 = (w4, Some e) ->
     (main env w).2 = 1 /\
     stdout (main env w).1
     = stdout w4 ++ [ sprint [ "Error deleting files and directory:"; e ] ]).
Proof.
  intros Hcfg Hmk Hdown Hup staging.
  assert (LocalDownloadPath (Source config) <> "") as Hne.
  { intros E. unfold os.MkdirAll in Hmk. by rewrite E in Hmk. }
  rewrite (main_reaches_upload env config w w1 w2) by done.
  unfold finish. rewrite Hup. split.
  - intros w4 Hrm. rewrite Hrm. simpl.
    destruct (RemoveAll_ok _ _ _ _ Hne Hrm) as (H1 & H2 & _). done.
  - intros w4 e Hrm. by rewrite Hrm.
Qed.

(** * From the listing to the destination *)

Lemma finish_requests env config w :
  requests (finish env config w).1 = requests (uploadCall env config w).1.
Proof.
  unfold finish. destruct (uploadCall env config w) as [w3 [e|]]; [done|].
  destruct (os.RemoveAll env _ w3) as [w4 r] eqn:Hrm.
  apply RemoveAll_fields in Hrm as [_ Hreq]. by destruct r.
Qed.

Lemma round_requests_no_put c bucket rs c' i :
  ~ In (s3.PutObjectReq c' i) (concat (map (round_requests c bucket) rs)).
Proof.
  induction rs as [|[o oc] rs IH]; simpl; [tauto|].
  intros [H|H]%in_app_or; [|done]. by destruct oc; simpl in H; destruct H.
Qed.

(** C6 (amended). A round of the download loop for an object of size zero
    creates and writes no file and opens no handle; the walk function of the
    upload sends nothing for a file of size zero, and every put of the run
    carries the bytes of a file with a size above zero.  When no regular file lies below the staging
    root before the run and the keys of the listed objects with a size above
    zero are made of real names, every key sent to the destination is the
    key of a listed object with a size above zero: a key listed with size
    zero only is never sent. *)
Theorem C6_empty_objects_skipped env config w w1 out :
  readConfig env "config.yaml" w = Ok config ->
  os.MkdirAll env (LocalDownloadPath (Source config)) w = (w1, None) ->
  s3_ListObjects env (sourceClient config) (listingInput config) = Ok out ->
  (forall k data,
     fs w !! k = Some (File data) ->
     os.below (filepath.Clean (LocalDownloadPath (Source config))) k = false) ->
  (forall o, In o (s3.Contents out) -> 0 < s3.Size o -> clean_key (s3.Key o) = true) ->
  let rs := (roundsCall env config w1).2 in
  let w' := (main env w).1 in
  (forall o st wo d oc,
     s3.Size o <= 0 ->
     downloadObject env (sourceClient config) (Bucket (Source config))
       (LocalDownloadPath (Source config)) o st = (wo, d, oc) ->
     (forall p data, fs wo !! p = Some (File data) <-> fs st.1 !! p = Some (File data)) /\
     open_files wo = open_files st.1 /\ d = st.2) /\
  (forall o oc, In (o, oc) rs -> s3.Size o <= 0 -> wrote oc = false) /\
  (forall path info err wu wu' r,
     os.Size info <= 0 ->
     uploadFn env config path info err wu = (wu', r) -> requests wu' = requests wu) /\
  (forall c i,
     In (s3.PutObjectReq c i) (requests w') ->
     In (s3.PutObjectReq c i) (requests w) \/
     (s3.pi_Body i <> [] /\
      exists o, In o (s3.Contents out) /\ 0 < s3.Size o /\ s3.pi_Key i = s3.Key o)) /\
  (forall K,
     (forall o, In o (s3.Contents out) -> s3.Key o = K -> s3.Size o <= 0) ->
     forall c i,
       In (s3.PutObjectReq c i) (requests w') -> s3.pi_Key i = K ->
       In (s3.PutObjectReq c i) (requests w)).
Proof.
  intros Hcfg Hmk Hlist Hfresh Hkeys rs w'.
  pose proof (staging_after_download env config w1 out Hlist) as [Horigin _].
  pose proof (downloadCall_requests env config w1 out Hlist) as Hreq2.
  fold rs in Horigin, Hreq2. subst rs w'.
  destruct (downloadCall_rounds env config w1 out Hlist) as (wl & d & rs & Hrs & Hloop & Hcall).
  rewrite Hrs, Hcall in *. simpl in *.
  set (w2 := run_deferred d wl) in *.
  rewrite (main_reaches_upload env config w w1 w2) by done.
  rewrite finish_requests.
  destruct (uploadCall env config w2) as [w3 r] eqn:Hup. simpl.
  destruct (uploadCall_spec _ _ _ _ _ Hup) as (_ & _ & sent & Hsub & Hsz & Hreq3).
  destruct (MkdirAll_ok _ _ _ _ Hmk) as (Hfiles1 & _ & Hdir1 & _ & _ & _ & Hreq1).
  assert (forall c i,
            In (s3.PutObjectReq c i) (requests w3) ->
            In (s3.PutObjectReq c i) (requests w) \/
            (s3.pi_Body i <> [] /\
             exists o, In o (s3.Contents out) /\ 0 < s3.Size o /\ s3.pi_Key i = s3.Key o))
    as Hputs.
  { intros c i. rewrite Hreq3, Hreq2, Hreq1.
    intros [[Hin|Hin]%in_app_or|Hin]%in_app_or; [by left|..].
    { destruct Hin as [|Hin]; [done|]. by apply round_requests_no_put in Hin. }
    right. apply in_map_iff in Hin as (v & [= <- <-] & Hv).
    assert (0 < os.Size (walk.v_info v)) as Hsize.
    { rewrite Forall_forall in Hsz. by apply Hsz, list_elem_of_In. }
    assert (In v (List.filter regular (visitsCall env config w2))) as [Hvis Hreg]%filter_In.
    { eapply list_elem_of_In, elem_of_sublist; [|exact Hsub]. by apply list_elem_of_In. }
    destruct (visits_regular _ _ _ _ Hvis Hreg) as (data & Hinfo & Hat & Hwhere).
    simpl. unfold stored. rewrite Hat. split.
    { rewrite Hinfo in Hsize. simpl in Hsize. by destruct data. }
    destruct Hwhere as [Hroot|[Hclean Hbelow]].
    { rewrite Hroot in Hat. subst w2.
      destruct (run_deferred_fields d wl) as (Hfs & _ & _). rewrite Hfs in Hat.
      assert (fs wl !! filepath.Clean (LocalDownloadPath (Source config)) = Some Directory)
        by (eapply loop_dirs; [exact Hloop|exact Hdir1]).
      congruence. }
    rewrite Hclean in Hat.
    destruct (Horigin _ _ Hat) as [Hold|(o & oc & _ & Hin & _ & Hp & Hs)].
    { apply Hfiles1 in Hold. apply Hfresh in Hold. congruence. }
    exists o. repeat split; try done.
    unfold uploadKey. rewrite Hp. unfold stagingPath. apply round_trip_clean_key. auto. }
  split; [|split; [|split; [|split; [exact Hputs|]]]].
  - intros o [wi di] wo d' oc Hs Hround. simpl.
    assert (wrote oc = false) as Hw
      by (by destruct (round_size _ _ _ _ _ _ _ _ _ _ Hround Hs) as [->|[->| ->]]).
    split; [by eapply round_files_same|].
    destruct (round_handles _ _ _ _ _ _ _ _ _ _ Hround) as (new & -> & -> & Hlen).
    rewrite Hw in Hlen. by destruct new.
  - intros o oc Hin Hs.
    edestruct loop_outcome_size as [Hzero _]; [exact Hloop|exact Hin|].
    by destruct (Hzero Hs) as [->|[->| ->]].
  - intros path info err wu wu' r0 Hs Hcall'.
    destruct (uploadFile_spec _ _ _ _ _ _ _ _ _ _ Hcall') as (_ & _ & [?|(_ & _ & ? & _)]);
      [done|lia].
  - intros K HK c i Hin Hkey.
    destruct (Hputs c i Hin) as [?|(_ & o & Ho & Hs & Hk)]; [done|].
    specialize (HK o Ho). rewrite <- Hk, Hkey in HK. specialize (HK eq_refl). lia.
Qed.

(** C6 as stated fails: the bucket holds [a//b] with five bytes and [a/b]
    with none; both keys have the staging path [staging/a/b], and the run
    puts the five bytes under the key [a/b]. *)
Lemma C6_counterexample :
  let objs := [ ("a//b", bytes "hello"); ("a/b", bytes "") ] in
  let cfg := sim.config "staging" in
  let env := sim.env 1000 objs cfg in
  ~ (forall o, In o (map sim.describe objs) -> s3.Size o = 0 ->
               ~ In (s3.Key o) (map s3.pi_Key (puts (requests (main env sim.world).1)))).
Proof.
  intros objs cfg env H.
  apply (H (sim.describe ("a/b", bytes ""))); vm_compute; auto.
Qed.

(** * The statements on concrete runs *)

(** A bucket with [a.txt] (5 bytes), [dir/b.txt] (0 bytes) and [dir/c.txt]
    (3 bytes): two files are downloaded, two objects are put under the keys
    [a.txt] and [dir/c.txt], the staging directory is gone at the end and the
    exit code is 0. *)
Example three_objects :
  let objs := [ ("a.txt", bytes "hello"); ("dir/b.txt", bytes ""); ("dir/c.txt", bytes "abc") ] in
  let cfg := sim.config "./staging/" in
  let run := main (sim.env 1000 objs cfg) sim.world in
  stdout run.1 = [ "Downloaded file: a.txt"; "Downloaded file: dir/c.txt";
                   "Download and upload complete. Deleted local files and directory." ] /\
  map s3.pi_Key (puts (requests run.1)) = [ "a.txt"; "dir/c.txt" ] /\
  get_keys (requests run.1) = [ "a.txt"; "dir/b.txt"; "dir/c.txt" ] /\
  fs run.1 = fs sim.world /\
  open_files run.1 = [] /\
  run.2 = 0.
Proof. vm_compute. repeat split; reflexivity. Qed.

Lemma C4_upload_abort_witness :
  let objs := [ ("a.txt", bytes "hello"); ("b.txt", bytes "xy"); ("c.txt", bytes "abc") ] in
  let cfg := sim.config "staging" in
  let env := with_put_fault "b.txt" "SlowDown" (sim.env 1000 objs cfg) in
  let w := (downloadCall env cfg (os.MkdirAll env "staging" sim.world).1).1 in
  map walk.v_path (visitsCall env cfg w)
    = [ "staging"; "staging/a.txt"; "staging/b.txt"; "staging/c.txt" ] /\
  (uploadCall env cfg w).2 = Some "SlowDown" /\
  map s3.pi_Key (puts (requests (uploadCall env cfg w).1)) = [ "a.txt"; "b.txt" ] /\
  (finish env cfg w).2 = 1.
Proof.
  intros objs cfg env w.
  set (pre := firstn 2 (visitsCall env cfg w)).
  set (v := {| walk.v_path := "staging/b.txt";
               walk.v_info := {| os.IsDir := false; os.Size := 2 |};
               walk.v_err := None |}).
  set (post := skipn 3 (visitsCall env cfg w)).
  set (w1 := (walk.walk_visits (uploadFn env cfg) pre w).1).
  set (w1' := (os.Open env "staging/b.txt" w1).1).
  set (f := {| fd := 7; fname := "staging/b.txt" |}).
  destruct (C4_upload_abort env cfg w pre v post w1 w1' f "SlowDown")
    as (w2 & sent & Hcall & _ & _ & _ & _ & _ & Hfin); [vm_compute; reflexivity..|].
  split; [vm_compute; reflexivity|]. split; [by rewrite Hcall|]. split; [vm_compute; reflexivity|].
  by rewrite Hfin.
Defined.

Lemma C10_open_before_size_check_witness :
  let cfg := sim.config "staging" in
  let env := with_os_fault OpOpen "staging/empty.txt" "open staging/empty.txt: permission denied"
               (sim.env 1000 [] cfg) in
  let w := set_fs (<["staging/empty.txt" := File []]> (<["staging" := Directory]> (fs sim.world)))
             sim.world in
  (uploadCall env cfg w).2 = Some "open staging/empty.txt: permission denied" /\
  (finish env cfg w).2 = 1.
Proof.
  intros cfg env w.
  set (pre := firstn 1 (visitsCall env cfg w)).
  set (v := {| walk.v_path := "staging/empty.txt";
               walk.v_info := {| os.IsDir := false; os.Size := 0 |};
               walk.v_err := None |}).
  destruct (C10_open_before_size_check env cfg w pre v [] w
              "open staging/empty.txt: permission denied")
    as (Hcall & _ & _ & Hfin & _); [vm_compute; reflexivity..|].
  split; [by rewrite Hcall|by rewrite Hfin].
Defined.

Lemma C7_cleanup_and_exit_witness :
  let objs := [ ("a.txt", bytes "hello"); ("dir/b.txt", bytes ""); ("dir/c.txt", bytes "abc") ] in
  let cfg := sim.config "staging" in
  let env := sim.env 1000 objs cfg in
  (main env sim.world).2 = 0 /\
  fs (main env sim.world).1 !! "staging" = None /\
  fs (main env sim.world).1 !! "staging/dir/c.txt" = None.
Proof.
  intros objs cfg env.
  set (w1 := (os.MkdirAll env "staging" sim.world).1).
  set (w2 := (downloadCall env cfg w1).1).
  set (w3 := (uploadCall env cfg w2).1).
  set (w4 := (os.RemoveAll env "staging" w3).1).
  destruct (C7_cleanup_and_exit env cfg sim.world w1 w2 w3) as [Hok _]; [vm_compute; reflexivity..|].
  destruct (Hok w4) as (Hexit & Hroot & Hbelow & _); [vm_compute; reflexivity|].
  split; [exact Hexit|]. split; [exact Hroot|]. by apply Hbelow.
Defined.

Lemma C6_empty_objects_skipped_witness :
  let objs := [ ("a.txt", bytes "hello"); ("dir/b.txt", bytes "") ] in
  let cfg := sim.config "staging" in
  let env := sim.env 1000 objs cfg in
  ~ (exists c i,
        In (s3.PutObjectReq c i) (requests (main env sim.world).1) /\
        s3.pi_Key i = "dir/b.txt").
Proof.
  intros objs cfg env (c & i & Hin & Hkey).
  set (w1 := (os.MkdirAll env "staging" sim.world).1).
  pose proof (C6_empty_objects_skipped env cfg sim.world w1
              {| s3.Contents := map sim.describe objs; s3.IsTruncated := false;
                 s3.NextMarker := None |}) as H.
  assert (readConfig env "config.yaml" sim.world = Ok cfg) as H1 by (vm_compute; reflexivity).
  assert (os.MkdirAll env (LocalDownloadPath (Source cfg)) sim.world = (w1, None)) as H2
    by (vm_compute; reflexivity).
  assert (s3_ListObjects env (sourceClient cfg) (listingInput cfg)
          = Ok {| s3.Contents := map sim.describe objs; s3.IsTruncated := false;
                 s3.NextMarker := None |}) as H3 by reflexivity.
  specialize (H H1 H2 H3). clear H1 H2 H3.
  assert (forall k data, fs sim.world !! k = Some (File data) ->
            os.below (filepath.Clean (LocalDownloadPath (Source cfg))) k = false) as H4.
  { intros k data. unfold sim.world. cbn [fs].
    destruct (decide (k = "config.yaml")) as [->|Hk]; [intros _; vm_compute; reflexivity|].
    rewrite lookup_insert_ne by done.
    destruct (decide (k = ".")) as [->|Hk']; [by rewrite lookup_insert_eq|].
    by rewrite lookup_insert_ne. }

  assert (forall o, In o (map sim.describe objs) -> 0 < s3.Size o -> clean_key (s3.Key o) = true)
    as H5.
  { intros o [<-|[<-|[]]] Hs; [reflexivity|]. vm_compute in Hs. discriminate. }

  specialize (H H4 H5). cbv zeta in H. destruct H as (_ & _ & _ & _ & Hzero).
  specialize (Hzero "dir/b.txt").
  assert (forall o, In o (map sim.describe objs) -> s3.Key o = "dir/b.txt" -> s3.Size o <= 0) as H6.
  { intros o [<-|[<-|[]]]; [intros [=]|]. intros _. vm_compute. discriminate. }

  specialize (Hzero H6 c i Hin Hkey). exact Hzero.
Defined.

(** * The failures of [main] before the upload *)

(** X1. When no regular file [config.yaml] is in the working directory, or
    its bytes are no valid configuration, [main] prints the error, exits
    with code 1 and does nothing else: no file is touched and no request is
    sent. *)
Theorem main_without_config env w :
  (forall data, fs w !! "config.yaml" = Some (File data) ->
                exists e, yaml_Unmarshal env data = Err e) ->
  exists e,
    main env w = (Println [ "Error reading config file:"; e ] w, 1) /\
    fs (main env w).1 = fs w /\
    requests (main env w).1 = requests w /\
    open_files (main env w).1 = open_files w.
Proof.
  intros H. unfold main, readConfig, os.ReadFile.
  destruct (os_fault env OpReadFile "config.yaml") as [e|]; [by exists e|].
  change (filepath.Clean "config.yaml") with "config.yaml".
  destruct (fs w !! "config.yaml") as [[data|]|] eqn:E; [|by eexists..].
  destruct (H data eq_refl) as [e He]. rewrite He. by exists e.
Qed.

Lemma main_without_config_witness :
  exists e,
    main (sim.env 1000 [] (sim.config "staging")) (set_fs ∅ sim.world)
    = (Println [ "Error reading config file:"; e ] (set_fs ∅ sim.world), 1).
Proof.
  destruct (main_without_config (sim.env 1000 [] (sim.config "staging")) (set_fs ∅ sim.world))
    as (e & He & _).
  - intros data Hdata. simpl in Hdata. by rewrite lookup_empty in Hdata.
  - by exists e.
Defined.

(** X2. When the configured staging path is empty (as when the
    configuration names none) or is a regular file, [main] prints the error
    of the directory creation, exits with code 1, changes no file and sends
    no request. *)
Theorem main_without_staging env w config :
  readConfig env "config.yaml" w = Ok config ->
  LocalDownloadPath (Source config) = "" \/
  os.is_file (fs w) (filepath.Clean (LocalDownloadPath (Source config))) = true ->
  exists e,
    main env w = (Println [ "Error creating download directory:"; e ] w, 1) /\
    fs (main env w).1 = fs w /\
    requests (main env w).1 = requests w.
Proof.
  intros Hcfg Hbad. unfold main. rewrite Hcfg.
  destruct (os.MkdirAll env (LocalDownloadPath (Source config)) w) as [w1 [e|]] eqn:Hmk.
  { apply MkdirAll_err in Hmk as ->. by exists e. }
  exfalso. unfold os.MkdirAll in Hmk. destruct Hbad as [Hempty|Hfile].
  { by rewrite Hempty in Hmk. }
  destruct (String.eqb _ ""); [done|]. destruct (os_fault env _ _); [done|].
  destruct (existsb _ _) eqn:Hex; [done|].
  apply not_true_iff_false in Hex. apply Hex, existsb_exists.
  exists (filepath.Clean (LocalDownloadPath (Source config))).
  split; [apply chain_self, Clean_nonempty|done].
Qed.

Lemma main_without_staging_witness :
  exists e,
    main (sim.env 1000 [ ("a.txt", bytes "hello") ] (sim.config "config.yaml")) sim.world
    = (Println [ "Error creating download directory:"; e ] sim.world, 1).
Proof.
  destruct (main_without_staging (sim.env 1000 [ ("a.txt", bytes "hello") ] (sim.config "config.yaml"))
              sim.world (sim.config "config.yaml")) as (e & He & _).
  - vm_compute; reflexivity.
  - right. vm_compute; reflexivity.
  - by exists e.
Defined.

(** X3. When the listing fails, [downloadFiles] returns its error after that
    single request: [main] prints it and exits with code 1; no object is
    fetched, no file is written, nothing is uploaded, and the staging
    directory made at the start is left in place. *)
Theorem main_listing_failed env w config w1 e :
  readConfig env "config.yaml" w = Ok config ->
  os.MkdirAll env (LocalDownloadPath (Source config)) w = (w1, None) ->
  s3_ListObjects env (sourceClient config) (listingInput config) = Err e ->
  (main env w).2 = 1 /\
  stdout (main env w).1 = stdout w ++ [ sprint [ "Error downloading files:"; e ] ] /\
  requests (main env w).1
  = requests w ++ [ s3.ListObjectsReq (sourceClient config) (listingInput config) ] /\
  fs (main env w).1 !! filepath.Clean (LocalDownloadPath (Source config)) = Some Directory /\
  (forall p data, fs (main env w).1 !! p = Some (File data) <-> fs w !! p = Some (File data)).
Proof.
  intros Hcfg Hmk Hlist. unfold main. rewrite Hcfg, Hmk.
  unfold downloadCall. fold (sourceClient config) (listingInput config).
  pose proof (downloadFiles_listing_failed env (AccessKey (Source config))
    (SecretKey (Source config)) (Endpoint (Source config)) (Bucket (Source config))
    (LocalDownloadPath (Source config)) (Region (Source config)) w1 e Hlist) as ->.
  destruct (MkdirAll_ok _ _ _ _ Hmk) as (Hfiles & _ & Hdir & _ & _ & Hout & Hreq).
  simpl. by rewrite Hout, Hreq.
Qed.

Lemma main_listing_failed_witness :
  let cfg := sim.config "staging" in
  let env := {| os_fault := fun _ _ => None; copy_fault := fun _ => None;
                yaml_Unmarshal := fun _ => Ok cfg;
                s3_ListObjects := fun _ _ => Err "AccessDenied";
                s3_GetObject := fun _ _ => Err "AccessDenied";
                s3_PutObject := fun _ _ => None |} in
  (main env sim.world).2 = 1 /\
  fs (main env sim.world).1 !! "staging" = Some Directory.
Proof.
  intros cfg env.
  pose proof (main_listing_failed env sim.world cfg (os.MkdirAll env "staging" sim.world).1
                "AccessDenied") as H.
  assert (readConfig env "config.yaml" sim.world = Ok cfg) as H1 by (vm_compute; reflexivity).
  assert (os.MkdirAll env (LocalDownloadPath (Source cfg)) sim.world
          = ((os.MkdirAll env "staging" sim.world).1, None)) as H2 by (vm_compute; reflexivity).
  destruct (H H1 H2 eq_refl) as (Hexit & _ & _ & Hdir & _).
  split; [exact Hexit|exact Hdir].
Defined.

(** * The order and the direction of the requests *)

Lemma round_requests_read_source config rs :
  Forall (reads_source config)
    (concat (map (round_requests (sourceClient config) (Bucket (Source config))) rs)).
Proof.
  induction rs as [|[o oc] rs IH]; simpl; [constructor|].
  apply Forall_app. split; [|done]. by destruct oc; repeat constructor.
Qed.

(** X4. The requests of a run come in two blocks: first the requests to the
    source endpoint and bucket (the listing, then the fetches), then the puts
    to the destination endpoint and bucket.  Nothing is ever put into the
    source, nothing is read from the destination, and no put is sent before
    the download loop has ended. *)
Theorem main_requests_order env w :
  exists reads writes,
    requests (main env w).1 = requests w ++ reads ++ writes /\
    forall config,
      readConfig env "config.yaml" w = Ok config ->
      Forall (reads_source config) reads /\ Forall (writes_destination config) writes.
Proof.
  unfold main. destruct (readConfig env "config.yaml" w) as [config|e] eqn:Hcfg.
  2:{ exists [], []. split; [by rewrite app_nil_r|done]. }
  destruct (os.MkdirAll env _ w) as [w1 [e|]] eqn:Hmk.
  { apply MkdirAll_err in Hmk as ->. exists [], []. split; [by rewrite app_nil_r|].
    by intros ? [= <-]. }
  destruct (MkdirAll_ok _ _ _ _ Hmk) as (_ & _ & _ & _ & _ & _ & Hreq1).
  destruct (s3_ListObjects env (sourceClient config) (listingInput config)) as [out|e] eqn:Hlist.
  - pose proof (downloadCall_requests env config w1 out Hlist) as Hreq2.
    destruct (downloadCall_rounds env config w1 out Hlist) as (wl & d & rs & Hrs & _ & Hcall).
    rewrite Hrs in Hreq2. rewrite Hcall in *. simpl in Hreq2.
    rewrite finish_requests.
    destruct (uploadCall env config (run_deferred d wl)) as [w3 r] eqn:Hup.
    destruct (uploadCall_spec _ _ _ _ _ Hup) as (_ & _ & sent & _ & _ & Hreq3).
    exists (s3.ListObjectsReq (sourceClient config) (listingInput config)
            :: concat (map (round_requests (sourceClient config) (Bucket (Source config))) rs)),
           (map (putRequest config (fs (run_deferred d wl))) sent).
    split; [simpl; by rewrite Hreq3, Hreq2, Hreq1, <- app_assoc|].
    intros ? [= <-]. split.
    + constructor; [done|apply round_requests_read_source].
    + apply Forall_forall. intros r' (v & <- & _)%list_elem_of_In%in_map_iff. done.
  - unfold downloadCall. fold (sourceClient config) (listingInput config).
    pose proof (downloadFiles_listing_failed env (AccessKey (Source config))
      (SecretKey (Source config)) (Endpoint (Source config)) (Bucket (Source config))
      (LocalDownloadPath (Source config)) (Region (Source config)) w1 e Hlist) as ->.
    exists [ s3.ListObjectsReq (sourceClient config) (listingInput config) ], [].
    split; [simpl; by rewrite Hreq1|]. intros ? [= <-]. split; by repeat constructor.
Qed.

(** * Open files *)

Lemma Create_fd env name w w' f :
  os.Create env name w = (w', Ok f) ->
  fd f = next_fd w /\ next_fd w' = S (next_fd w).
Proof.
  unfold os.Create. destruct (String.eqb name ""); [congruence|].
  destruct (os_fault env OpCreate name); [congruence|].
  destruct (fs w !! filepath.Clean name) as [[]|], (fs w !! filepath.Dir (filepath.Clean name)) as [[]|];
    try congruence; by intros [= <- <-].
Qed.

Lemma Open_fd env name w w' f :
  os.Open env name w = (w', Ok f) ->
  fd f = next_fd w /\ next_fd w' = S (next_fd w).
Proof.
  unfold os.Open. destruct (String.eqb name ""); [congruence|].
  destruct (os_fault env OpOpen name); [congruence|].
  destruct (fs w !! filepath.Clean name); [|congruence]. by intros [= <- <-].
Qed.

Lemma Copy_next_fd env f body w w' r :
  io.Copy env f body w = (w', r) -> next_fd w' = next_fd w.
Proof.
  unfold io.Copy. by destruct (copy_fault env (fname f)) as [[n e]|]; intros [= <- <-].
Qed.

Lemma filter_close_fresh (l : list FileHandle) n :
  Forall (fun g => (fd g < n)%nat) l ->
  List.filter (fun g => negb (Nat.eqb (fd g) n)) l = l.
Proof.
  induction 1 as [|g l Hg _ IH]; simpl; [done|].
  rewrite (proj2 (Nat.eqb_neq (fd g) n)) by lia. simpl. by rewrite IH.
Qed.

Lemma round_fds env c bucket localPath o w d w' d' oc :
  downloadObject env c bucket localPath o (w, d) = (w', d', oc) ->
  exists new,
    d' = new ++ d /\ open_files w' = new ++ open_files w /\
    (next_fd w <= next_fd w')%nat /\
    Forall (fun g => (next_fd w <= fd g < next_fd w')%nat) new.
Proof.
  intros H. round_cases H.
  all: repeat match goal with
         | E : os.Create _ _ _ = (_, Ok _) |- _ =>
             pose proof (Create_fd _ _ _ _ _ E) as [? ?];
             apply Create_ok in E; destruct E as (_ & _ & _ & _ & ? & _ & _)
         | E : os.Create _ _ _ = (_, Err _) |- _ => apply Create_err in E; subst
         | E : io.Copy _ _ _ _ = _ |- _ =>
             pose proof (Copy_next_fd _ _ _ _ _ _ E);
             apply Copy_spec in E; destruct E as (? & _ & _ & ? & _ & _)
         | E : os.MkdirAll _ _ _ = (_, Some _) |- _ => apply MkdirAll_err in E; subst
         | E : os.MkdirAll _ _ _ = (_, None) |- _ =>
             apply MkdirAll_ok in E; destruct E as (_ & _ & _ & ? & ? & _ & _)
         end; simpl in *.
  all: try (exists []; simpl; split; [reflexivity|]; split; [congruence|];
            split; [lia|constructor]).
  all: eexists [ _ ]; simpl; split; [reflexivity|]; split; [congruence|]; split; [lia|].
  all: constructor; [lia|constructor].
Qed.

Lemma loop_fds env c bucket localPath objs w d w' d' rs :
  downloadLoop env c bucket localPath objs (w, d) = (w', d', rs) ->
  exists new,
    d' = new ++ d /\ open_files w' = new ++ open_files w /\
    (next_fd w <= next_fd w')%nat /\
    Forall (fun g => (next_fd w <= fd g < next_fd w')%nat) new.
Proof.
  revert w d w' d' rs. induction objs as [|o objs IH]; intros w d w' d' rs H.
  - inversion H; subst. exists []. repeat split; [lia|constructor].
  - loop_step H w1 d1 oc Hround rs1 Hloop.
    destruct (round_fds _ _ _ _ _ _ _ _ _ _ Hround) as (n1 & -> & Ho1 & Hle1 & Hn1).
    destruct (IH _ _ _ _ _ Hloop) as (n2 & -> & Ho2 & Hle2 & Hn2).
    exists (n2 ++ n1). rewrite Ho2, Ho1, <- !app_assoc. repeat split; [lia|].
    apply Forall_app. split; (eapply Forall_impl; [eassumption|]); simpl; intros; lia.
Qed.

Lemma run_deferred_open_files d w :
  open_files (run_deferred d w) = List.filter (kept d) (open_files w) /\
  next_fd (run_deferred d w) = next_fd w.
Proof.
  revert w. induction d as [|f d IH]; intros w; simpl.
  - split; [|done]. induction (open_files w) as [|g l IHl]; simpl; [done|]. by rewrite <- IHl.
  - destruct (IH (os.Close f w)) as [-> ->]. split; [|done]. simpl.
    induction (open_files w) as [|g l IHl]; simpl; [done|].
    unfold kept at 2. simpl. destruct (Nat.eqb (fd g) (fd f)); simpl; [done|].
    fold (kept d g). destruct (kept d g); by rewrite IHl.
Qed.

Lemma filter_kept_self new : List.filter (kept new) new = [].
Proof.
  assert (forall l, Forall (fun g => In g new) l -> List.filter (kept new) l = []) as Hall.
  { induction 1 as [|g l Hg _ IH]; simpl; [done|]. rewrite IH.
    assert (kept new g = false) as ->; [|done].
    apply negb_false_iff, existsb_exists. exists g. by rewrite Nat.eqb_refl. }
  apply Hall, Forall_forall. by intros ? ?%list_elem_of_In.
Qed.

Lemma filter_kept_old new (l : list FileHandle) n :
  Forall (fun g => (fd g < n)%nat) l ->
  Forall (fun f => (n <= fd f)%nat) new ->
  List.filter (kept new) l = l.
Proof.
  intros Hl Hnew. induction Hl as [|g l Hg _ IH]; simpl; [done|].
  assert (kept new g = true) as ->; [|by rewrite IH].
  apply negb_true_iff, not_true_iff_false. intros (f & Hf & Heq%Nat.eqb_eq)%existsb_exists.
  rewrite Forall_forall in Hnew. apply list_elem_of_In, Hnew in Hf. lia.
Qed.

Section Handles.
Context (env : Env).

(** X5. The files the download loop creates stay open until the loop has
    ended, one for each round that created a file, and [downloadFiles]
    returns with every one of them closed again: the table of open files
    is then the one it was called with, with or without a listing. *)
Theorem download_closes_at_return accessKey secretKey endpoint bucket localPath region w :
  fresh w ->
  let loop_end := (downloadRounds env accessKey secretKey endpoint bucket localPath region w).1.1 in
  let rs := (downloadRounds env accessKey secretKey endpoint bucket localPath region w).2 in
  let w' := (downloadFiles env accessKey secretKey endpoint bucket localPath region w).1 in
  (exists new,
     open_files loop_end = new ++ open_files w /\
     length new = length (List.filter (fun r : s3.Object * Outcome => wrote r.2) rs)) /\
  open_files w' = open_files w /\ fresh w'.
Proof.
  intros Hfresh. unfold downloadFiles, downloadRounds, client.ListObjects.
  destruct (s3_ListObjects env _ _) as [out|e]; [|split; [by exists []|done]].
  destruct (downloadLoop _ _ _ _ _ _) as [[wl d] rs] eqn:Hloop.
  destruct (loop_fds _ _ _ _ _ _ _ _ _ _ Hloop) as (new & Hd & Ho & Hle & Hnew).
  destruct (loop_handles _ _ _ _ _ _ _ _ _ _ Hloop) as (new' & Hd' & _ & Hlen).
  simpl in *. rewrite app_nil_r in Hd, Hd'. subst d. subst new'.
  split; [by exists new|].
  destruct (run_deferred_open_files new wl) as [Hopen Hfd].
  assert (List.filter (kept new) (open_files wl) = open_files w) as E.
  { rewrite Ho, List.filter_app, filter_kept_self. simpl.
    apply (filter_kept_old new _ (next_fd w)); [done|].
    eapply Forall_impl; [exact Hnew|]. simpl. intros. lia. }
  split; [by rewrite Hopen|].
  unfold fresh. rewrite Hopen, E, Hfd.
  eapply Forall_impl; [exact Hfresh|]. simpl. intros. lia.
Qed.

Lemma uploadFile_open_files c bucket directory path info err w :
  fresh w ->
  let w' := (uploadFile env c bucket directory path info err w).1 in
  open_files w' = open_files w /\ fresh w'.
Proof.
  intros Hfresh. unfold uploadFile, client.PutObject.
  destruct err; [done|]. destruct (os.IsDir info); [done|].
  destruct (os.Open env path w) as [w1 [f|e]] eqn:Hopen.
  2:{ by apply Open_err in Hopen as ->. }
  destruct (Open_fd _ _ _ _ _ Hopen) as [Hfd Hnext].
  apply Open_ok in Hopen as (_ & _ & _ & Ho & _ & _).
  assert (List.filter (fun g => negb (Nat.eqb (fd g) (fd f))) (open_files w1) = open_files w) as E.
  { rewrite Ho. simpl. rewrite Nat.eqb_refl. simpl. rewrite Hfd. by apply filter_close_fresh. }
  assert (Forall (fun g => (fd g < next_fd w1)%nat) (open_files w)) as Hf.
  { rewrite Hnext. eapply Forall_impl; [exact Hfresh|]. simpl. intros. lia. }
  destruct (os.Size info >? 0); [destruct (s3_PutObject env c _)|]; simpl.
  all: (split; [exact E|unfold fresh; simpl; rewrite E; exact Hf]).
Qed.

Lemma walk_open_files c bucket directory vs w :
  fresh w ->
  let w' := (walk.walk_visits (uploadFile env c bucket directory) vs w).1 in
  open_files w' = open_files w /\ fresh w'.
Proof.
  revert w. induction vs as [|v vs IH]; intros w Hfresh; simpl; [done|].
  destruct (uploadFile_open_files c bucket directory (walk.v_path v) (walk.v_info v)
              (walk.v_err v) w Hfresh) as [Ho Hf].
  destruct (uploadFile env c bucket directory (walk.v_path v) (walk.v_info v) (walk.v_err v) w)
    as [w1 [e|]]; simpl in *; [done|].
  destruct (IH w1 Hf) as [Ho' Hf']. by rewrite Ho' in *.
Qed.

(** X6. The walk function of [uploadFiles] closes the file it opened on each
    of its ways out, so the upload holds one file at a time, and
    [uploadFiles] returns with the table of open files it was called with,
    also when the walk is cut short by an error. *)
Theorem upload_closes_every_file accessKey secretKey endpoint bucket directory region w :
  fresh w ->
  let c := client.New endpoint accessKey secretKey region in
  let w' := (uploadFiles env accessKey secretKey endpoint bucket directory region w).1 in
  (forall path info err w0,
     fresh w0 ->
     open_files (uploadFile env c bucket directory path info err w0).1 = open_files w0) /\
  open_files w' = open_files w /\ fresh w'.
Proof.
  intros Hfresh. cbv zeta. split.
  - intros path info err w0 H0. by apply uploadFile_open_files.
  - unfold uploadFiles, walk.Walk. by apply walk_open_files.
Qed.

End Handles.

Lemma download_closes_at_return_witness :
  let objs := [ ("a.txt", bytes "hello"); ("b.txt", bytes "abc") ] in
  let cfg := sim.config "staging" in
  let env := sim.env 1000 objs cfg in
  length (open_files (roundsCall env cfg sim.world).1.1) = 2%nat /\
  open_files (downloadCall env cfg sim.world).1 = [].
Proof.
  intros objs cfg env.
  assert (fresh sim.world) as Hfresh by constructor.
  destruct (download_closes_at_return env "AKIASRC" "s3cr3t" "https://src.example" "in"
              "staging" "us-east-1" sim.world Hfresh) as ((new & Hnew & Hlen) & Hopen & _).
  split.
  - change (length (open_files
      (downloadRounds env "AKIASRC" "s3cr3t" "https://src.example" "in" "staging" "us-east-1"
         sim.world).1.1) = 2%nat).
    rewrite Hnew, length_app, Hlen. vm_compute. reflexivity.
  - exact Hopen.
Defined.

Lemma upload_closes_every_file_witness :
  let objs := [ ("a.txt", bytes "hello"); ("b.txt", bytes "abc") ] in
  let cfg := sim.config "staging" in
  let env := sim.env 1000 objs cfg in
  let w2 := (downloadCall env cfg sim.world).1 in
  length (puts (requests (uploadCall env cfg w2).1)) = 2%nat /\
  open_files (uploadCall env cfg w2).1 = [].
Proof.
  intros objs cfg env w2.
  assert (fresh w2) as Hfresh by (vm_compute; constructor).
  destruct (upload_closes_every_file env "AKIADST" "s3cr3t" "https://dst.example" "out"
              "staging" "us-east-1" w2 Hfresh) as (_ & Hopen & _).
  split; [vm_compute; reflexivity|].
  change (open_files (uploadCall env cfg w2).1) with
    (open_files (uploadFiles env "AKIADST" "s3cr3t" "https://dst.example" "out"
                   "staging" "us-east-1" w2).1).
  rewrite Hopen. vm_compute. reflexivity.
Defined.

(** * An upload without error *)

Section UploadDone.
Context (env : Env) (c : s3.Client) (bucket directory : string).

Local Abbreviation fn := (uploadFile env c bucket directory).
Local Abbreviation put_of := (fun (m : gmap string Node) (v : walk.Visit) =>
  s3.PutObjectReq c {| s3.pi_Bucket := bucket;
                       s3.pi_Key := toObjectKey directory (walk.v_path v);
                       s3.pi_Body := stored m (walk.v_path v) |}).

Lemma uploadFile_done path info err w w' :
  fn path info err w = (w', None) ->
  err = None /\ fs w' = fs w /\ stdout w' = stdout w /\
  requests w' = requests w ++
    (if negb (os.IsDir info) && (os.Size info >? 0)
     then [ s3.PutObjectReq c {| s3.pi_Bucket := bucket;
                                 s3.pi_Key := toObjectKey directory path;
                                 s3.pi_Body := stored (fs w) path |} ]
     else []).
Proof.
  intros H. upload_cases H; rewrite ?Hdir; simpl.
  all: try (destruct (Z.gtb_spec (os.Size info) 0); [|lia]).
  all: try (destruct (Z.gtb_spec (os.Size info) 0); [lia|]).
  all: try (by rewrite ?app_nil_r).
  unfold os.contents, stored. rewrite Hfname, Hfs, Hreq. done.
Qed.

Lemma walk_visits_done vs w w' :
  walk.walk_visits fn vs w = (w', None) ->
  fs w' = fs w /\ stdout w' = stdout w /\
  Forall (fun v => walk.v_err v = None) vs /\
  requests w' = requests w ++
    map (put_of (fs w))
      (List.filter (fun v => regular v && (os.Size (walk.v_info v) >? 0)) vs).
Proof.
  revert w. induction vs as [|v vs IH]; intros w H; simpl in H.
  - inversion H; subst. simpl. by rewrite app_nil_r.
  - destruct (fn (walk.v_path v) (walk.v_info v) (walk.v_err v) w) as [w1 [e|]] eqn:Hv; [done|].
    apply uploadFile_done in Hv as (Herr & Hfs & Hout & Hreq).
    destruct (IH _ H) as (Hfs' & Hout' & Hall & Hreq').
    split; [congruence|]. split; [congruence|]. split; [by constructor|].
    rewrite Hreq', Hreq, Hfs, <- app_assoc. f_equal. simpl.
    unfold regular at 2. rewrite Herr.
    by destruct (negb (os.IsDir (walk.v_info v)) && (os.Size (walk.v_info v) >? 0)).
Qed.

End UploadDone.

(** X7. When [uploadFiles] returns no error, [Walk] met no error either, and
    every regular file with a size above zero that it visited has been put,
    each once and in walk order, under its upload key and with the bytes
    stored under its path; nothing else is sent, the tree is left as it was
    and nothing is printed. *)
Theorem upload_sends_every_file env accessKey secretKey endpoint bucket directory region w :
  (uploadFiles env accessKey secretKey endpoint bucket directory region w).2 = None ->
  let c := client.New endpoint accessKey secretKey region in
  let w' := (uploadFiles env accessKey secretKey endpoint bucket directory region w).1 in
  let files := List.filter (fun v => regular v && (os.Size (walk.v_info v) >? 0))
                 (walk.visits env directory w) in
  fs w' = fs w /\ stdout w' = stdout w /\
  Forall (fun v => walk.v_err v = None) (walk.visits env directory w) /\
  requests w' = requests w ++
    map (fun v => s3.PutObjectReq c
                    {| s3.pi_Bucket := bucket;
                       s3.pi_Key := toObjectKey directory (walk.v_path v);
                       s3.pi_Body := stored (fs w) (walk.v_path v) |}) files.
Proof.
  unfold uploadFiles, walk.Walk. intros H. cbv zeta.
  destruct (walk.walk_visits _ _ w) as [w' r] eqn:Hwalk. simpl in H. subst r.
  by apply walk_visits_done in Hwalk.
Qed.

Lemma upload_sends_every_file_witness :
  let objs := [ ("a.txt", bytes "hello"); ("dir/b.txt", bytes ""); ("dir/c.txt", bytes "abc") ] in
  let cfg := sim.config "staging" in
  let env := sim.env 1000 objs cfg in
  let w2 := (downloadCall env cfg sim.world).1 in
  puts (requests (uploadCall env cfg w2).1)
  = [ {| s3.pi_Bucket := "out"; s3.pi_Key := "a.txt"; s3.pi_Body := bytes "hello" |};
      {| s3.pi_Bucket := "out"; s3.pi_Key := "dir/c.txt"; s3.pi_Body := bytes "abc" |} ].
Proof.
  intros objs cfg env w2.
  assert ((uploadFiles env "AKIADST" "s3cr3t" "https://dst.example" "out" "staging"
             "us-east-1" w2).2 = None) as Hdone by (vm_compute; reflexivity).
  destruct (upload_sends_every_file env "AKIADST" "s3cr3t" "https://dst.example" "out"
              "staging" "us-east-1" w2 Hdone) as (_ & _ & _ & Hreq).
  change (uploadCall env cfg w2) with
    (uploadFiles env "AKIADST" "s3cr3t" "https://dst.example" "out" "staging" "us-east-1" w2).
  rewrite Hreq. vm_compute. reflexivity.
Defined.

(** * Where the download writes *)

Lemma below_clean_key root K :
  clean_key K = true ->
  os.below (filepath.Clean root) (toLocalPath root K) = true.
Proof.
  intros HK. pose proof (clean_key_segs K HK) as Hsegs.
  unfold os.below, os.names_below, toLocalPath. rewrite Join_clean_key by done.
  rewrite (Rel_below (filepath.Clean root) (filepath.rooted root) (filepath.clean_elems root)
             (strings.Split K));
    [|by rewrite Clean_idempotent, Clean_unfold|apply clean_elems_wf|done|apply Split_nonempty].
  rewrite Join_Split. destruct (strings.Split K) as [|n ns] eqn:E; [by apply Split_nonempty in E|].
  inversion Hsegs as [|? ? [Hn _] _]; subst. apply normal_spec in Hn as (H1 & H2 & H3).
  destruct (String.eqb_spec K ".") as [->|_]; [by inversion E; subst|].
  destruct (String.eqb_spec n ".."); [done|]. by destruct (String.eqb_spec n "").
Qed.

Lemma clean_keys_inj localPath K1 K2 :
  clean_key K1 = true -> clean_key K2 = true ->
  toLocalPath localPath K1 = toLocalPath localPath K2 -> K1 = K2.
Proof.
  intros H1 H2 E%(f_equal (toObjectKey localPath)).
  by rewrite !round_trip_clean_key in E.
Qed.

(** X8. The staging path of a key made of real names lies inside the
    staging root, and two such keys with the same staging path are the same
    key: the objects of these keys are written below the staging directory
    and never onto each other's file. *)
Theorem clean_keys_stay_inside localPath K1 K2 :
  clean_key K1 = true -> clean_key K2 = true ->
  os.below (filepath.Clean localPath) (toLocalPath localPath K1) = true /\
  (toLocalPath localPath K1 = toLocalPath localPath K2 -> K1 = K2).
Proof.
  intros H1 H2. split; [by apply below_clean_key|by apply clean_keys_inj].
Qed.

Lemma clean_keys_stay_inside_witness :
  os.below "staging" "staging/dir/c.txt" = true /\
  (toLocalPath "./staging/" "dir/c.txt" = toLocalPath "./staging/" "dir/b.txt" ->
   "dir/c.txt" = "dir/b.txt").
Proof.
  exact (clean_keys_stay_inside "./staging/" "dir/c.txt" "dir/b.txt" eq_refl eq_refl).
Defined.

(** A key with [..] leaves the staging directory. *)
Example key_leaves_staging :
  toLocalPath "staging" "../etc/passwd" = "etc/passwd" /\
  os.below "staging" (toLocalPath "staging" "../etc/passwd") = false.
Proof. by vm_compute. Qed.

(** * What the download leaves in place *)

(** X9. [downloadFiles] removes nothing: a directory stays a directory, a
    regular file stays a regular file, and it keeps its bytes when its name
    is the staging path of no listed object. *)
Theorem download_never_removes env accessKey secretKey endpoint bucket localPath region w :
  let c := client.New endpoint accessKey secretKey region in
  let w' := (downloadFiles env accessKey secretKey endpoint bucket localPath region w).1 in
  (forall p, fs w !! p = Some Directory -> fs w' !! p = Some Directory) /\
  (forall p data,
     fs w !! p = Some (File data) ->
     os.is_file (fs w') p = true /\
     ((forall out o,
         s3_ListObjects env c {| s3.li_Bucket := bucket; s3.li_Marker := None |} = Ok out ->
         In o (s3.Contents out) -> toLocalPath localPath (s3.Key o) <> p) ->
      fs w' !! p = Some (File data))).
Proof.
  cbv zeta. unfold downloadFiles, client.ListObjects.
  destruct (s3_ListObjects env _ _) as [out|e] eqn:Hlist.
  2:{ simpl. split; [done|]. intros p data Hp. unfold os.is_file. by rewrite Hp. }
  destruct (downloadLoop _ _ _ _ _ _) as [[wl d] rs] eqn:Hloop. simpl.
  destruct (run_deferred_fields d wl) as (-> & _ & _). split.
  - intros p Hp. by eapply loop_dirs.
  - intros p data Hp.
    edestruct loop_file_persist as (x' & Hp' & Hx'); [exact Hloop|exact Hp|].
    split; [unfold os.is_file; by rewrite Hp'|].
    intros Hno. rewrite Hp'. f_equal. f_equal. apply Hx'.
    intros r Hr _. apply (Hno out r.1 eq_refl).
    erewrite <- loop_objects by exact Hloop. by apply in_map.
Qed.

(** * The exit of [main] *)



(** * A run without errors *)

Lemma filter_all {A} (f : A -> bool) l : (forall x, f x = true) -> List.filter f l = l.
Proof. intros H. induction l as [|x l IH]; simpl; [done|]. by rewrite H, IH. Qed.

Lemma entries_below_complete r m k n :
  m !! k = Some n -> filepath.Clean k = k -> os.below r k = true ->
  exists ns, In (ns, (k, n)) (walk.entries_below r m).
Proof.
  intros Hm Hc Hb. unfold os.below in Hb.
  destruct (os.names_below r k) as [ns|] eqn:E; [|done]. exists ns.
  unfold walk.entries_below. apply sort_entries_In, list_elem_of_In, list_elem_of_omap.
  exists (k, n). split; [by apply elem_of_map_to_list|].
  unfold walk.entry_below. simpl. by rewrite Hc, String.eqb_refl, E.
Qed.

Lemma loop_wrote_fetch env c bucket localPath objs w d w' d' rs o oc :
  downloadLoop env c bucket localPath objs (w, d) = (w', d', rs) ->
  In (o, oc) rs -> wrote oc = true ->
  exists body, s3_GetObject env c {| s3.gi_Bucket := bucket; s3.gi_Key := s3.Key o |} = Ok body.
Proof.
  revert w d w' d' rs. induction objs as [|o1 objs IH]; intros w d w' d' rs H Hin Hw.
  - by inversion H; subst.
  - loop_step H w1 d1 oc1 Hround rs1 Hloop. destruct Hin as [[= -> ->]|Hin]; [|eauto].
    destruct (round_files_wrote _ _ _ _ _ _ _ _ _ _ Hround Hw) as (_ & body & _ & Hget & _).
    by exists body.
Qed.

Section NoFault.
Context (env : Env).
Context (Hos : forall op p, os_fault env op p = None).
Context (Hput : forall c i, s3_PutObject env c i = None).

Lemma hidden_no_fault r m k : walk.hidden env r m k = false.
Proof.
  unfold walk.hidden. apply not_true_iff_false. intros (a & _ & H)%existsb_exists.
  unfold walk.faulty in H. rewrite !Hos in H. by rewrite andb_false_r in H.
Qed.

Lemma visit_of_no_fault e :
  walk.visit_of env e
  = {| walk.v_path := e.2.1; walk.v_info := os.info_of e.2.2; walk.v_err := None |}.
Proof. unfold walk.visit_of. rewrite Hos. destruct e.2.2; by rewrite ?Hos. Qed.

(** The visits of a directory: the directory, then everything inside it. *)
Lemma visits_no_fault root w :
  root <> "" -> fs w !! filepath.Clean root = Some Directory ->
  walk.visits env root w
  = {| walk.v_path := root; walk.v_info := os.info_of Directory; walk.v_err := None |}
    :: map (walk.visit_of env) (walk.entries_below (filepath.Clean root) (fs w)).
Proof.
  intros Hroot Hdir. unfold walk.visits, os.Lstat.
  destruct (String.eqb_spec root ""); [done|]. rewrite Hos, Hdir. simpl. rewrite Hos.
  rewrite filter_all; [done|]. intros e. by rewrite hidden_no_fault.
Qed.

(** The walk function returns no error on a visit without error of a name
    that exists. *)
Lemma walk_visits_ok c bucket directory vs w :
  Forall (fun v => walk.v_err v = None /\ walk.v_path v <> "" /\
                   fs w !! filepath.Clean (walk.v_path v) <> None) vs ->
  (walk.walk_visits (uploadFile env c bucket directory) vs w).2 = None.
Proof.
  revert w. induction vs as [|v vs IH]; intros w Hall; simpl; [done|].
  inversion Hall as [|? ? (Herr & Hname & Hthere) Hrest]; subst.
  destruct (uploadFile env c bucket directory (walk.v_path v) (walk.v_info v) (walk.v_err v) w)
    as [w1 r] eqn:Hv.
  pose proof (uploadFile_spec _ _ _ _ _ _ _ _ _ _ Hv) as (Hfs & _ & _).
  assert (r = None) as ->.
  { unfold uploadFile, client.PutObject in Hv. rewrite Herr in Hv.
    destruct (os.IsDir (walk.v_info v)); [by inversion Hv|].
    unfold os.Open in Hv. destruct (String.eqb_spec (walk.v_path v) ""); [done|].
    rewrite Hos in Hv. destruct (fs w !! filepath.Clean (walk.v_path v)); [|done].
    destruct (os.Size (walk.v_info v) >? 0); [rewrite Hput in Hv|]; by inversion Hv. }
  apply IH. eapply Forall_impl; [exact Hrest|]. simpl. intros x. by rewrite Hfs.
Qed.

End NoFault.

(** X11. A run that meets no error migrates the bucket.  The staging
    directory is new, the listed keys are made of real names and differ
    from each other, the listing tells the sizes of the objects, no round of
    the download ends on an error branch, the operating system and the
    destination refuse nothing: then [main] exits with code 0, the puts it
    sends are the puts of the listed objects with a size above zero, each
    to the destination bucket under the key of the object and with the
    bytes fetched for it, and the staging directory is gone. *)
Theorem migration_without_errors env config w w1 out :
  readConfig env "config.yaml" w = Ok config ->
  os.MkdirAll env (LocalDownloadPath (Source config)) w = (w1, None) ->
  s3_ListObjects env (sourceClient config) (listingInput config) = Ok out ->
  let root := LocalDownloadPath (Source config) in
  let fetch := fun o : s3.Object =>
    s3_GetObject env (sourceClient config) (getInput config (s3.Key o)) in
  (forall k n, fs w !! k = Some n -> os.below (filepath.Clean root) k = false) ->
  (forall o, In o (s3.Contents out) -> clean_key (s3.Key o) = true) ->
  NoDup (map s3.Key (s3.Contents out)) ->
  (forall o body, In o (s3.Contents out) -> fetch o = Ok body ->
                  Z.of_nat (length body) = s3.Size o) ->
  (forall r, In r (roundsCall env config w1).2 -> failed r.2 = false) ->
  (forall op p, os_fault env op p = None) ->
  (forall c i, s3_PutObject env c i = None) ->
  os.endsWithDot root = false ->
  (main env w).2 = 0 /\
  (forall c i,
     In (s3.PutObjectReq c i) (requests (main env w).1) <->
     In (s3.PutObjectReq c i) (requests w) \/
     (c = destClient config /\ s3.pi_Bucket i = Bucket (Destination config) /\
      exists o, In o (s3.Contents out) /\ 0 < s3.Size o /\
                s3.pi_Key i = s3.Key o /\ fetch o = Ok (s3.pi_Body i))) /\
  (forall k, k = filepath.Clean root \/ os.below (filepath.Clean root) k = true ->
             fs (main env w).1 !! k = None).
Proof.
  intros Hcfg Hmk Hlist root fetch Hnew Hkeys Hnodup Hsizes Hdone Hos Hput Hdot.
  subst fetch. cbv beta.
  assert (root <> "") as Hroot.
  { intros E. subst root. unfold os.MkdirAll in Hmk. by rewrite E in Hmk. }
  pose proof (staging_after_download env config w1 out Hlist) as [Horigin Hdown].
  pose proof (downloadCall_requests env config w1 out Hlist) as Hreq2.
  cbv zeta in Horigin, Hdown.
  destruct (downloadCall_rounds env config w1 out Hlist) as (wl & d & rs & Hrs & Hloop & Hcall).
  rewrite Hrs, Hcall in *. simpl in Horigin, Hdown, Hreq2, Hdone.
  set (w2 := run_deferred d wl) in *.
  destruct (MkdirAll_ok _ _ _ _ Hmk) as (Hfiles1 & _ & Hdir1 & _ & _ & _ & Hreq1).
  assert (fs w2 !! filepath.Clean root = Some Directory) as Hdir2.
  { subst w2. destruct (run_deferred_fields d wl) as (-> & _ & _).
    eapply loop_dirs; [exact Hloop|exact Hdir1]. }
  pose proof (loop_objects _ _ _ _ _ _ _ _ _ _ Hloop) as Hobjs.
  (* the staged files *)
  assert (forall o, In o (s3.Contents out) -> 0 < s3.Size o ->
            exists body,
              s3_GetObject env (sourceClient config) (getInput config (s3.Key o)) = Ok body /\
              body <> [] /\
              fs w2 !! stagingPath config (s3.Key o) = Some (File body)) as Hstaged.
  { intros o Ho Hsize. rewrite <- Hobjs in Ho.
    apply in_map_iff in Ho as ([o' oc] & Heq & Hin). simpl in Heq. subst o'.
    pose proof Hin as [i Hi]%list_elem_of_In%list_elem_of_lookup.
    assert (oc = Downloaded) as ->.
    { pose proof (Hdone _ Hin) as Hf. simpl in Hf.
      edestruct loop_outcome_size as [_ Hnw]; [exact Hloop|exact Hin|].
      destruct oc; try done. specialize (Hnw eq_refl). lia. }
    destruct (loop_wrote_fetch _ _ _ _ _ _ _ _ _ _ _ _ Hloop Hin eq_refl) as (body & Hget).
    destruct (Hdown i o Hi) as (data & Hat & Hbody).
    exists body. split; [exact Hget|]. split.
    { intros ->. apply Hsizes in Hget; [simpl in Hget; lia|].
      rewrite <- Hobjs. by apply (in_map fst) in Hin. }
    rewrite Hat. f_equal. f_equal. apply Hbody; [exact Hget|].
    intros j r Hj Hr Hw E.
    assert (s3.Key r.1 = s3.Key o) as Hk.
    { apply (clean_keys_inj (LocalDownloadPath (Source config))); [| |exact E].
      - apply Hkeys. rewrite <- Hobjs. apply in_map.
        apply list_elem_of_In, list_elem_of_lookup. eauto.
      - apply Hkeys. rewrite <- Hobjs. by apply (in_map fst) in Hin. }
    rewrite <- Hobjs, map_map in Hnodup.
    assert (j = i); [|lia].
    eapply NoDup_lookup; [exact Hnodup|..].
    - rewrite list_lookup_fmap, Hr. simpl. by rewrite Hk.
    - by rewrite list_lookup_fmap, Hi. }
  (* the upload *)
  pose proof (visits_no_fault env Hos root w2 Hroot Hdir2) as Hvisits.
  assert ((uploadCall env config w2).2 = None) as Hup.
  { rewrite uploadCall_unfold. unfold visitsCall. fold root. rewrite Hvisits.
    apply walk_visits_ok; [done..|].
    constructor; [simpl; by rewrite Hdir2|].
    apply Forall_forall. intros v (e & <- & He)%list_elem_of_In%in_map_iff.
    apply entries_below_In in He as (Hat & Hclean & _).
    rewrite visit_of_no_fault by done. simpl. rewrite Hclean, Hat.
    repeat split; try done. intros E. rewrite E in Hclean. by apply Clean_nonempty in Hclean. }
  destruct (uploadCall env config w2) as [w3 r] eqn:Hcall3. simpl in Hup. subst r.
  pose proof Hcall3 as Hsent. rewrite uploadCall_unfold in Hsent.
  apply walk_visits_done in Hsent as (Hfs3 & _ & _ & Hreq3).
  unfold visitsCall in Hreq3. fold root in Hreq3.
  (* the removal *)
  assert (exists w4, os.RemoveAll env root w3 = (w4, None)) as [w4 Hrm].
  { unfold os.RemoveAll. destruct (String.eqb_spec root ""); [done|].
    fold root in Hdot. rewrite Hdot, Hos. by eexists. }
  assert (main env w = (Println [ "Download and upload complete. Deleted local files and directory." ] w4, 0))
    as Hmain.
  { rewrite (main_reaches_upload env config w w1 w2) by done.
    unfold finish. rewrite Hcall3. fold root. by rewrite Hrm. }
  rewrite Hmain. simpl.
  destruct (RemoveAll_ok _ _ _ _ Hroot Hrm) as (Hgone & Hbelow & _ & _ & Hreq4).
  split; [done|]. split.
  2:{ intros k [->|Hk]; [done|by apply Hbelow]. }
  intros c i. rewrite Hreq4, Hreq3, Hreq2, Hreq1. split.
  - intros [[Hin|Hin]%in_app_or|Hin]%in_app_or; [by left|..].
    { destruct Hin as [|Hin]; [done|]. by apply round_requests_no_put in Hin. }
    right. apply in_map_iff in Hin as (v & [= <- <-] & [Hvis Hv]%filter_In).
    apply andb_prop in Hv as [Hreg Hsize]. simpl.
    split; [done|]. split; [done|].
    destruct (visits_regular _ _ _ _ Hvis Hreg) as (data & Hinfo & Hat & Hwhere).
    destruct Hwhere as [Hr|[Hclean Hbelow']].
    { rewrite Hr in Hat. fold root in Hat. congruence. }
    rewrite Hclean in Hat. unfold stored. rewrite Hclean, Hat.
    destruct (Horigin _ _ Hat) as [Hold|(o & oc & _ & Hin & _ & Hp & Hs)].
    { apply Hfiles1 in Hold. apply Hnew in Hold. fold root in Hbelow'. congruence. }
    destruct (Hstaged o Hin Hs) as (body & Hget & _ & Hat').
    rewrite <- Hp, Hat in Hat'. inversion Hat'; subst data.
    exists o. repeat split; try done.
    rewrite Hp. unfold stagingPath. apply round_trip_clean_key. auto.
  - intros [Hin|(-> & Hb & o & Ho & Hs & Hk & Hget)].
    { apply in_or_app. left. apply in_or_app. by left. }
    apply in_or_app. right.
    destruct (Hstaged o Ho Hs) as (body & Hget' & Hne & Hat).
    rewrite Hget in Hget'. inversion Hget' as [Hbody].
    assert (filepath.Clean (stagingPath config (s3.Key o)) = stagingPath config (s3.Key o))
      as Hclean.
    { apply Join_cleaned. unfold filepath.Join. fold root.
      destruct (String.eqb_spec root ""); [done|]. apply Clean_nonempty. }
    destruct (entries_below_complete (filepath.Clean root) (fs w2) _ _ Hat Hclean)
      as [ns Hentry]; [by apply below_clean_key, Hkeys|].
    apply in_map_iff.
    exists (walk.visit_of env (ns, (stagingPath config (s3.Key o), File body))).
    rewrite visit_of_no_fault by done. simpl. split.
    + destruct i as [b k bd]. simpl in *. subst. f_equal. f_equal.
      * unfold stagingPath. apply round_trip_clean_key. auto.
      * unfold stored. by rewrite Hclean, Hat.
    + apply filter_In. split.
      * rewrite Hvisits. right. apply in_map_iff. eexists. split; [|exact Hentry].
        by rewrite visit_of_no_fault.
      * unfold regular. simpl. by destruct body.
Qed.

Lemma migration_without_errors_witness :
  let objs := [ ("a.txt", bytes "hello"); ("dir/b.txt", bytes ""); ("dir/c.txt", bytes "abc") ] in
  let cfg := sim.config "staging" in
  let env := sim.env 1000 objs cfg in
  (main env sim.world).2 = 0 /\
  In (s3.PutObjectReq (destClient cfg)
        {| s3.pi_Bucket := "out"; s3.pi_Key := "dir/c.txt"; s3.pi_Body := bytes "abc" |})
     (requests (main env sim.world).1) /\
  ~ (exists c i, In (s3.PutObjectReq c i) (requests (main env sim.world).1) /\
                 s3.pi_Key i = "dir/b.txt").
Proof.
  intros objs cfg env.
  set (w1 := (os.MkdirAll env "staging" sim.world).1).
  set (a := sim.describe ("a.txt", bytes "hello")).
  set (b := sim.describe ("dir/b.txt", bytes "")).
  set (c0 := sim.describe ("dir/c.txt", bytes "abc")).
  pose proof (migration_without_errors env cfg sim.world w1
              {| s3.Contents := [ a; b; c0 ]; s3.IsTruncated := false;
                 s3.NextMarker := None |}) as H.
  assert (readConfig env "config.yaml" sim.world = Ok cfg) as H1 by (vm_compute; reflexivity).
  assert (os.MkdirAll env (LocalDownloadPath (Source cfg)) sim.world = (w1, None)) as H2
    by (vm_compute; reflexivity).
  assert (s3_ListObjects env (sourceClient cfg) (listingInput cfg)
          = Ok {| s3.Contents := [ a; b; c0 ]; s3.IsTruncated := false;
                  s3.NextMarker := None |}) as H3 by reflexivity.
  specialize (H H1 H2 H3). clear H1 H2 H3. cbv beta zeta in H. cbn [s3.Contents] in H.
  assert (forall k n, fs sim.world !! k = Some n ->
            os.below (filepath.Clean (LocalDownloadPath (Source cfg))) k = false) as H4.
  { intros k n. unfold sim.world. cbn [fs].
    destruct (decide (k = "config.yaml")) as [->|Hk]; [intros _; vm_compute; reflexivity|].
    rewrite lookup_insert_ne by done.
    destruct (decide (k = ".")) as [->|Hk']; [intros _; vm_compute; reflexivity|].
    by rewrite lookup_insert_ne. }
  assert (forall o, In o [ a; b; c0 ] -> clean_key (s3.Key o) = true) as H5.
  { intros o [<-|[<-|[<-|[]]]]; reflexivity. }
  assert (NoDup (map s3.Key [ a; b; c0 ])) as H6.
  { apply (bool_decide_unpack (NoDup _)). vm_compute. exact I. }
  assert (forall o body, In o [ a; b; c0 ] ->
            s3_GetObject env (sourceClient cfg) (getInput cfg (s3.Key o)) = Ok body ->
            Z.of_nat (length body) = s3.Size o) as H7.
  { intros o body [<-|[<-|[<-|[]]]] Hget; vm_compute in Hget; inversion Hget; reflexivity. }
  assert ((roundsCall env cfg w1).2 = [ (a, Downloaded); (b, NothingWritten); (c0, Downloaded) ])
    as Hrs by (vm_compute; reflexivity).
  assert (forall r, In r (roundsCall env cfg w1).2 -> failed r.2 = false) as H8.
  { rewrite Hrs. intros r [<-|[<-|[<-|[]]]]; reflexivity. }
  assert (forall op p, os_fault env op p = None) as H9 by reflexivity.
  assert (forall c i, s3_PutObject env c i = None) as H10 by reflexivity.
  assert (os.endsWithDot (LocalDownloadPath (Source cfg)) = false) as H11
    by (vm_compute; reflexivity).
  specialize (H H4 H5 H6 H7 H8 H9 H10 H11). destruct H as (Hexit & Hputs & _).
  split; [exact Hexit|]. split.
  - apply (proj2 (Hputs _ _)). right. split; [reflexivity|]. split; [reflexivity|].
    exists c0. split; [right; right; left; reflexivity|].
    split; [vm_compute; reflexivity|]. split; reflexivity.
  - intros (c & i & Hin & Hkey).
    destruct (proj1 (Hputs c i) Hin) as [Hold|(_ & _ & o & Ho & Hs & Hk & _)].
    + destruct Hold.
    + rewrite Hkey in Hk. destruct Ho as [<-|[<-|[<-|[]]]].
      * discriminate Hk.
      * vm_compute in Hs. discriminate Hs.
      * discriminate Hk.
Defined.
